(** * The receiving side of the fsutil file-transfer protocol

    A shallow embedding of [vendor/github.com/tonistiigi/fsutil/receive.go]:
    the packet-dispatch loop of [receiver.run], the content-pull callback
    [receiver.asyncDataFunc], the walker feed [dynamicWalker.update], the
    generic [stack] and the epilogue of [run] that persists the metadata
    log.  Shared Go objects (the two tables of the receiver, the write
    sinks, the walker) live in one explicit state record that every
    operation threads through. *)

From Stdlib Require Import ZArith List String Ascii Bool Lia.
From Stdlib.Strings Require Import Byte.
From Stdlib Require Import DecimalString.
From stdpp Require Import gmap strings list fin_maps.

Local Open Scope string_scope.
Local Open Scope Z_scope.
Local Open Scope list_scope.

(** ** Go runtime pieces used by the receiver *)

(** [uint32] arithmetic: values are kept in [0, 2^32) and wrap around. *)
Definition uint32_max : Z := 2 ^ 32.
Definition uint32 (n : Z) : Z := n mod uint32_max.

(** [binary.LittleEndian.PutUint32]: the four bytes written to [dt[0:4]]. *)
Definition byte_of_Z (n : Z) : byte :=
match Byte.of_N (Z.to_N (Z.land n 255)) with
| Some b => b
| None => x00
end.

Definition PutUint32 (v : Z) : list byte :=
[ byte_of_Z v; byte_of_Z (Z.shiftr v 8);
  byte_of_Z (Z.shiftr v 16); byte_of_Z (Z.shiftr v 24) ].

(** [strings.ReplaceAll] for one-byte patterns, the only use made of it by
    [filepath.ToSlash] and [filepath.FromSlash]. *)
Fixpoint ReplaceAll (s : string) (old new : ascii) : string :=
match s with
| EmptyString => EmptyString
| String c rest =>
    String (if Ascii.eqb c old then new else c) (ReplaceAll rest old new)
end.

(** The format verb [%d] of [errors.Errorf] on an unsigned value. *)
Definition format_d (n : Z) : string :=
NilZero.string_of_uint (N.to_uint (Z.to_N n)).

(** *** [path/filepath] *)

(** The two families of platforms Go builds for; they differ in
    [filepath.Separator]. *)
Inductive GOOS := unix | windows.

Definition Separator (goos : GOOS) : ascii :=
match goos with
| unix => "/"%char
| windows => "\"%char
end.

Definition IsPathSeparator (goos : GOOS) (c : ascii) : bool :=
match goos with
| unix => Ascii.eqb c "/"
| windows => Ascii.eqb c "\" || Ascii.eqb c "/"
end.

Definition ToSlash (goos : GOOS) (path : string) : string :=
if Ascii.eqb (Separator goos) "/" then path
else ReplaceAll path (Separator goos) "/".

Definition FromSlash (goos : GOOS) (path : string) : string :=
if Ascii.eqb (Separator goos) "/" then path
else ReplaceAll path "/" (Separator goos).

(** [filepath.Clean], [filepath.Dir] and [filepath.Join] on paths without a
    volume name (wire paths are relative, [VolumeName] is empty for them).
    [Clean] is given by its documented rules on the list of path elements:
    empty and [.] elements are dropped, an inner [..] removes the element
    before it, a [..] at the root is dropped, and the empty result is [.]. *)
Fixpoint split_elems (goos : GOOS) (s : string) (cur : string)
  : list string :=
match s with
| EmptyString => [cur]
| String c rest =>
    if IsPathSeparator goos c then cur :: split_elems goos rest ""
    else split_elems goos rest (cur +:+ String c "")
end.

Definition clean_elem (rooted : bool) (out : list string) (e : string)
  : list string :=
if String.eqb e "" || String.eqb e "." then out
else if String.eqb e ".." then
  match out with
  | top :: below =>
      if String.eqb top ".." then e :: out else below
  | [] => if rooted then [] else [e]
  end
else e :: out.

Definition is_rooted (goos : GOOS) (path : string) : bool :=
match path with
| EmptyString => false
| String c _ => IsPathSeparator goos c
end.

Definition Clean (goos : GOOS) (path : string) : string :=
let sep := String (Separator goos) "" in
let rooted := is_rooted goos path in
let out := fold_left (clean_elem rooted) (split_elems goos path "") [] in
let body := String.concat sep (rev out) in
if rooted then sep +:+ body
else if String.eqb body "" then "." else body.

(** The prefix of [path] up to and including its last separator. *)
Fixpoint dir_prefix (goos : GOOS) (path : string) : string :=
match path with
| EmptyString => EmptyString
| String c rest =>
    if existsb (IsPathSeparator goos) (list_ascii_of_string path)
    then String c (dir_prefix goos rest)
    else EmptyString
end.

Definition filepath_Dir (goos : GOOS) (path : string) : string :=
Clean goos (dir_prefix goos path).

Definition filepath_Join (goos : GOOS) (a b : string) : string :=
if negb (String.eqb a "") then
  Clean goos (a +:+ String (Separator goos) "" +:+ b)
else if negb (String.eqb b "") then Clean goos b
else "".

(** *** [os.FileMode] *)

Definition FileMode := Z.

Definition ModeDir : FileMode := Z.shiftl 1 31.
Definition ModeSymlink : FileMode := Z.shiftl 1 27.
Definition ModeDevice : FileMode := Z.shiftl 1 26.
Definition ModeNamedPipe : FileMode := Z.shiftl 1 25.
Definition ModeSocket : FileMode := Z.shiftl 1 24.
Definition ModeCharDevice : FileMode := Z.shiftl 1 21.
Definition ModeIrregular : FileMode := Z.shiftl 1 19.

Definition ModeType : FileMode :=
Z.lor ModeDir (Z.lor ModeSymlink (Z.lor ModeNamedPipe
  (Z.lor ModeSocket (Z.lor ModeDevice (Z.lor ModeCharDevice ModeIrregular))))).

Definition IsDir (m : FileMode) : bool := negb (Z.land m ModeDir =? 0).
Definition IsRegular (m : FileMode) : bool := Z.land m ModeType =? 0.

(** ** Errors *)

(** The error values the receiver creates or passes on.  [ErrOther] stands
    for any error produced by a collaborator (the connection, a sink, a
    validator, the serializer, the context). *)
Inductive error :=
| io_EOF
| ErrOther (msg : string)
| ErrFromSender (data : list byte)
| PathError (Op : string) (Path : string)
| ErrInvalidFileRequestID (id : Z)
| ErrInvalidFileRequestPath (p : string)
| ErrWrap (cause : error) (msg : string).

(** The text of [err.Error()].  [PathError] always carries
    [syscall.EINVAL] here, whose text is [invalid argument]. *)
Fixpoint Error (e : error) : string :=
match e with
| io_EOF => "EOF"
| ErrOther msg => msg
| ErrFromSender data => "error from sender: " +:+ string_of_list_byte data
| PathError op path => op +:+ " " +:+ path +:+ ": invalid argument"
| ErrInvalidFileRequestID id => "invalid file request " +:+ format_d id
| ErrInvalidFileRequestPath p => "invalid file request " +:+ p
| ErrWrap cause msg => msg +:+ ": " +:+ Error cause
end.

(** [err == io.EOF] *)
Definition is_EOF (e : error) : bool :=
match e with
| io_EOF => true
| _ => false
end.

(** [errors.Wrap]: a nil cause is wrapped into nil. *)
Definition Wrap (cause : option error) (msg : string) : option error :=
match cause with
| Some c => Some (ErrWrap c msg)
| None => None
end.

(** ** Wire types *)

(** Modelled from the spec: the declaration of [types.Stat] is generated
    code outside the sources at hand; the fields are those of the spec's
    MetadataRecord.  The receiver reads and writes [Path], [Linkname] and
    [Mode] only. *)
Record Stat := mkStat {
  Path : string;
  Mode : Z;
  Uid : Z;
  Gid : Z;
  Size : Z;
  ModTime : Z;
  Linkname : string;
  Devmajor : Z;
  Devminor : Z;
  Xattrs : list (string * list byte)
}.

Inductive PacketType :=
| PACKET_STAT
| PACKET_REQ
| PACKET_DATA
| PACKET_FIN
| PACKET_ERR
| PACKET_other (n : Z).

(** [types.Packet] is one flat struct: every field is present whatever the
    type says, and [Stat] is a pointer that may be nil. *)
Record Packet := mkPacket {
  Type_ : PacketType;
  Stat_ : option Stat;
  ID : Z;
  Data : list byte
}.

Record currentPath := mkCurrentPath {
  path : string;
  stat : Stat
}.

Inductive ChangeKind := ChangeKindModify | ChangeKindAdd | ChangeKindDelete.

Definition metadataPath : string := ".fsutil-metadata".

(** ** [stack]: the generic LIFO of receive.go

    [items] is the Go slice: bottom first, the top is the last element. *)
Section Stack.
Context {T : Type}.

Record stack := mkStack { items : list T }.

Definition newStack : stack := mkStack [].

Definition push (s : stack) (v : T) : stack := mkStack (items s ++ [v]).

Definition pop (s : stack) : option T * stack :=
match last (items s) with
| None => (None, s)
| Some v => (Some v, mkStack (removelast (items s)))
end.

Definition peek (s : stack) : option T := last (items s).

Definition clear (s : stack) : stack := mkStack [].

End Stack.
Global Arguments stack : clear implicits.

(** ** [dynamicWalker]

    [walkChan] records the values sent on the channel so far, in order (the
    consumer side, [fill], only takes them off).  [closeCh_closed] and [err]
    are set by [fill] when the context is cancelled. *)
Record dynamicWalker := mkWalker {
  walkChan : list currentPath;
  walkChan_closed : bool;
  err : option error;
  closeCh_closed : bool
}.

Definition newDynamicWalker : dynamicWalker := mkWalker [] false None false.

Inductive update_result :=
| Updated (w : dynamicWalker) (e : option error)
| UpdatePanic (reason : string).

(** [dynamicWalker.update]: [None] is the nil pointer, which closes the
    channel.  Closing a closed channel and sending on a closed channel are
    run-time panics in Go. *)
Definition update (w : dynamicWalker) (p : option currentPath)
  : update_result :=
if closeCh_closed w then Updated w (Wrap (err w) "walker is closed")
else
  match p with
  | None =>
      if walkChan_closed w then UpdatePanic "close of closed channel"
      else Updated (mkWalker (walkChan w) true (err w) (closeCh_closed w)) None
  | Some cp =>
      if walkChan_closed w then UpdatePanic "send on closed channel"
      else Updated (mkWalker (walkChan w ++ [cp]) (walkChan_closed w)
                             (err w) (closeCh_closed w)) None
  end.

(** What [fill] does when it sees the context done. *)
Definition fill_cancelled (w : dynamicWalker) (e : error) : dynamicWalker :=
mkWalker (walkChan w) (walkChan_closed w) (Some e) true.

(** ** Collaborators, as interfaces *)

(** [Validator] and [Hardlinks]: a value that observes one change at a
    time and may reject it.  The last argument of the Go method is always
    nil in the receiver and is left out. *)
Class ChangeHandler (V : Type) := {
  zero_value : V;
  HandleChange : V -> ChangeKind -> string -> Stat -> V * option error
}.

(** [io.WriteCloser]; the byte count returned by [Write] is ignored by the
    receiver. *)
Class WriteCloser (W : Type) := {
  Write : W -> list byte -> W * option error;
  Close : W -> W * option error
}.

(** ** [wrappedWriteCloser] *)
Section Wrapped.
Context {W : Type} `{WriteCloser W}.

Record wrappedWriteCloser := mkWrapped {
  inner : W;
  close_err : option error;
  done : bool
}.

Definition newWrappedWriteCloser (wc : W) : wrappedWriteCloser :=
mkWrapped wc None false.

(** [Write] is the embedded sink's. *)
Definition wrapped_Write (w : wrappedWriteCloser) (dt : list byte)
  : wrappedWriteCloser * option error :=
let '(wc, e) := Write (inner w) dt in
(mkWrapped wc (close_err w) (done w), e).

Definition wrapped_Close (w : wrappedWriteCloser)
  : wrappedWriteCloser * option error :=
let '(wc, e) := Close (inner w) in
(mkWrapped wc e true, e).

(** [Wait]: [ctx_done] is the cancellation the [select] observes when it
    takes that branch; [None] as result means the call is still blocked. *)
Definition Wait (ctx_done : option error) (w : wrappedWriteCloser)
  : option (option error) :=
match ctx_done with
| Some e => Some (Some e)
| None => if done w then Some (close_err w) else None
end.

End Wrapped.
Global Arguments wrappedWriteCloser : clear implicits.

(** ** The receiver *)

(** How one pass through the body of the dispatch loop ends. *)
Inductive iter_result (S : Type) :=
| Continue (s : S)
| Abort (s : S) (e : error)
| Fin (s : S)
| Panic (s : S) (reason : string).
Global Arguments Continue {S} s.
Global Arguments Abort {S} s e.
Global Arguments Fin {S} s.
Global Arguments Panic {S} s reason.

(** What [r.conn.RecvMsg] hands back. *)
Inductive recv :=
| RecvOk (p : Packet)
| RecvErr (e : error).

(** How the dispatch goroutine stands after a prefix of the stream:
    waiting in the [RecvMsg] of the main loop, waiting in the [RecvMsg] of
    the drain loop, returned, or panicked. *)
Inductive outcome :=
| Receiving
| Draining
| Returned (e : option error)
| Panicked (reason : string).

(** The platform and the package-level functions the receiver calls whose
    code lies outside receive.go: [filepath.Dir] and [filepath.Join] of the
    platform, [fileCanRequestData], and the generated serializer of
    [types.Stat]. *)
Class Env := {
  goos : GOOS;
  Dir : string -> string;
  Join : string -> string -> string;
  fileCanRequestData : FileMode -> bool;
  SizeVT : Stat -> Z;
  MarshalToSizedBufferVT : Stat -> list byte -> list byte * option error
}.

Section Receiver.
Context {env : Env}.
Context {OV HV W : Type}.
Context {order_handler : ChangeHandler OV}.
Context {hl_handler : ChangeHandler HV}.
Context {sink : WriteCloser W}.

(** The [receiver] struct (the fields the dispatch loop and the callback
    use; [metadataOnly] is nil or a filter) together with the locals of
    [run] that the dispatch goroutine owns ([loop_i] is [i], [walker] is
    [w]).  [pipes] holds pointers: a sink is addressed by its position in
    [heap].  [conn] logs the packets handed to [r.conn.SendMsg] by the
    content-pull callback. *)
Record receiver := mkReceiver {
  dest : string;
  metadataOnly : option (string -> Stat -> bool);
  files : gmap string Z;
  pipes : gmap Z nat;
  heap : list (wrappedWriteCloser W);
  conn : list Packet;
  orderValidator : OV;
  hlValidator : HV;
  loop_i : Z;
  metadataBuffer : list byte;
  metadataParents : stack currentPath;
  walker : dynamicWalker
}.

(** The state [Receive] and the head of [run] set up. *)
Definition new_receiver (dest : string)
  (MetadataOnly : option (string -> Stat -> bool)) : receiver :=
mkReceiver dest MetadataOnly ∅ ∅ [] [] zero_value zero_value 0 []
  newStack newDynamicWalker.

Definition set_walker (s : receiver) (w : dynamicWalker) : receiver :=
mkReceiver (dest s) (metadataOnly s) (files s) (pipes s) (heap s) (conn s)
  (orderValidator s) (hlValidator s) (loop_i s) (metadataBuffer s)
  (metadataParents s) w.

Definition set_metadataParents (s : receiver) (st : stack currentPath)
  : receiver :=
mkReceiver (dest s) (metadataOnly s) (files s) (pipes s) (heap s) (conn s)
  (orderValidator s) (hlValidator s) (loop_i s) (metadataBuffer s) st
  (walker s).

Definition set_heap (s : receiver) (h : list (wrappedWriteCloser W))
  : receiver :=
mkReceiver (dest s) (metadataOnly s) (files s) (pipes s) h (conn s)
  (orderValidator s) (hlValidator s) (loop_i s) (metadataBuffer s)
  (metadataParents s) (walker s).

Definition metadataTransfer (s : receiver) : bool :=
match metadataOnly s with
| Some _ => true
| None => false
end.

(** The record of one entry in the metadata log: [alloc (n + 4)], the
    length written little-endian into the first four bytes, the serializer
    filling the remaining [n]. *)
Definition frame (st : Stat) : list byte * option error :=
let n := SizeVT st in
let '(body, e) := MarshalToSizedBufferVT st (repeat x00 (Z.to_nat n)) in
(PutUint32 (uint32 n) ++ body, e).

(** The loop that trims [metadataParents] back to the parent of the
    current entry; at most one pass per element of the stack. *)
Fixpoint trim_parents (fuel : nat) (parent : string)
  (st : stack currentPath) : stack currentPath :=
match fuel with
| O => st
| S fuel' =>
    match peek st with
    | None => st
    | Some last =>
        if String.eqb parent (path last) then st
        else trim_parents fuel' parent (snd (pop st))
    end
end.

(** [for _, cp := range metadataParents.items { w.update(cp) ... }] *)
Fixpoint replay (its : list currentPath) (w : dynamicWalker)
  : update_result :=
match its with
| [] => Updated w None
| cp :: rest =>
    match update w (Some cp) with
    | Updated w' None => replay rest w'
    | other => other
    end
end.

(** The tail of the [PACKET_STAT] case: [w.update(cp)]. *)
Definition forward (s : receiver) (cp : currentPath)
  : iter_result receiver :=
match update (walker s) (Some cp) with
| Updated w' None => Continue (set_walker s w')
| Updated w' (Some e) => Abort (set_walker s w') e
| UpdatePanic why => Panic s why
end.

(** The [if metadataTransfer { ... }] block after the validators, followed
    by the final [w.update(cp)] when the block does not [continue]. *)
Definition replay_parents (s : receiver) (cp : currentPath) (metaOnly : bool)
  : iter_result receiver :=
let parent := Dir (path cp) in
let isDir := IsDir (Mode (stat cp)) in
let st1 :=
  trim_parents (length (items (metadataParents s))) parent
    (metadataParents s) in
let st2 := if isDir then push st1 cp else st1 in
let s2 := set_metadataParents s st2 in
if metaOnly then Continue s2
else
  match replay (items st2) (walker s2) with
  | Updated w' None =>
      forward (set_metadataParents (set_walker s2 w') (clear st2)) cp
  | Updated w' (Some e) => Abort (set_walker s2 w') e
  | UpdatePanic why => Panic s2 why
  end.

(** [p.Stat.Path = path] and
    [p.Stat.Linkname = filepath.FromSlash(p.Stat.Linkname)] *)
Definition normalize (st : Stat) (native : string) : Stat :=
mkStat native (Mode st) (Uid st) (Gid st) (Size st) (ModTime st)
  (FromSlash goos (Linkname st)) (Devmajor st) (Devminor st) (Xattrs st).

(** From [p.Stat.Path = path] to the end of the [PACKET_STAT] case;
    [log] is the metadata buffer after this entry. *)
Definition accept_stat (s : receiver) (st : Stat) (native : string)
  (log : list byte) (metaOnly : bool) : iter_result receiver :=
let st' := normalize st native in
let files' :=
  if negb metaOnly && fileCanRequestData (Mode st')
  then <[Path st' := loop_i s]> (files s) else files s in
let i' := uint32 (loop_i s + 1) in
let cp := mkCurrentPath native st' in
let '(ov, e1) := HandleChange (orderValidator s) ChangeKindAdd (path cp)
                   (stat cp) in
let s1 := mkReceiver (dest s) (metadataOnly s) files' (pipes s) (heap s)
            (conn s) ov (hlValidator s) i' log (metadataParents s)
            (walker s) in
match e1 with
| Some e => Abort s1 e
| None =>
    let '(hv, e2) := HandleChange (hlValidator s) ChangeKindAdd (path cp)
                       (stat cp) in
    let s2 := mkReceiver (dest s) (metadataOnly s) files' (pipes s) (heap s)
                (conn s) ov hv i' log (metadataParents s) (walker s) in
    match e2 with
    | Some e => Abort s2 e
    | None =>
        if metadataTransfer s then replay_parents s2 cp metaOnly
        else forward s2 cp
    end
end.

(** The [PACKET_STAT] case for a non-nil [p.Stat]. *)
Definition handle_stat (s : receiver) (st : Stat) : iter_result receiver :=
let native := FromSlash goos (Path st) in
if negb (String.eqb (ToSlash goos native) (Path st)) then
  Abort s (PathError "unrepresentable path" (Path st))
else
  match metadataOnly s with
  | None => accept_stat s st native (metadataBuffer s) false
  | Some filter =>
      if String.eqb native metadataPath then Continue s
      else
        let '(rec, e) := frame st in
        let log := metadataBuffer s ++ rec in
        match e with
        | Some e =>
            Abort (mkReceiver (dest s) (metadataOnly s) (files s) (pipes s)
                     (heap s) (conn s) (orderValidator s) (hlValidator s)
                     (loop_i s) log (metadataParents s) (walker s)) e
        | None => accept_stat s st native log (negb (filter native st))
        end
  end.

(** The [PACKET_DATA] case. *)
Definition handle_data (s : receiver) (p : Packet) : iter_result receiver :=
match pipes s !! ID p with
| None => Abort s (ErrInvalidFileRequestID (ID p))
| Some a =>
    match heap s !! a with
    | None => Panic s "nil sink"
    | Some pw =>
        let '(pw', e) :=
          if (length (Data p) =? 0)%nat then wrapped_Close pw
          else wrapped_Write pw (Data p) in
        let s' := set_heap s (<[a := pw']> (heap s)) in
        match e with
        | Some e => Abort s' e
        | None => Continue s'
        end
    end
end.

(** The body of the dispatch loop after a successful [RecvMsg]: the
    [switch p.Type].  Progress reporting is a callback without influence
    on the loop and is not modelled. *)
Definition handle_packet (s : receiver) (p : Packet) : iter_result receiver :=
match Type_ p with
| PACKET_ERR => Abort s (ErrFromSender (Data p))
| PACKET_STAT =>
    match Stat_ p with
    | None =>
        match update (walker s) None with
        | Updated w' None => Continue (set_walker s w')
        | Updated w' (Some e) => Abort (set_walker s w') e
        | UpdatePanic why => Panic s why
        end
    | Some st => handle_stat s st
    end
| PACKET_DATA => handle_data s p
| PACKET_FIN => Fin s
| PACKET_REQ | PACKET_other _ => Continue s
end.

(** The inner loop of the [PACKET_FIN] case. *)
Fixpoint drain (rs : list recv) : outcome :=
match rs with
| [] => Draining
| RecvOk _ :: rest => drain rest
| RecvErr e :: _ => if is_EOF e then Returned None else Returned (Some e)
end.

(** The dispatch goroutine of [run] on the stream [rs] of receive
    results. *)
Fixpoint dispatch (rs : list recv) (s : receiver) : receiver * outcome :=
match rs with
| [] => (s, Receiving)
| RecvErr e :: _ => (s, Returned (Some e))
| RecvOk p :: rest =>
    match handle_packet s p with
    | Continue s' => dispatch rest s'
    | Abort s' e => (s', Returned (Some e))
    | Fin s' => (s', drain rest)
    | Panic s' why => (s', Panicked why)
    end
end.

(** *** [asyncDataFunc]

    The callback blocks in [wwc.Wait], so it is given in two halves: up to
    and including [SendMsg], and from the return of [Wait] on.  [send_err]
    is the result of [r.conn.SendMsg].  The first half hands back the
    identifier and the address of the sink it registered. *)
Definition asyncDataFunc_request (s : receiver) (p : string) (wc : W)
  (send_err : option error) : receiver * (error + Z * nat) :=
match files s !! p with
| None => (s, inl (ErrInvalidFileRequestPath p))
| Some id =>
    let a := length (heap s) in
    let s' :=
      mkReceiver (dest s) (metadataOnly s) (delete p (files s))
        (<[id := a]> (pipes s))
        (heap s ++ [newWrappedWriteCloser wc])
        (conn s ++ [mkPacket PACKET_REQ None id []])
        (orderValidator s) (hlValidator s) (loop_i s) (metadataBuffer s)
        (metadataParents s) (walker s) in
    match send_err with
    | Some e => (s', inl e)
    | None => (s', inr (id, a))
    end
end.

(** The second half; [None] while [Wait] is still blocked. *)
Definition asyncDataFunc_finish (s : receiver) (id : Z) (a : nat)
  (ctx_done : option error) : option (receiver * option error) :=
match heap s !! a with
| None => None
| Some wwc =>
    match Wait ctx_done wwc with
    | None => None
    | Some (Some e) => Some (s, Some e)
    | Some None =>
        Some (mkReceiver (dest s) (metadataOnly s) (files s)
                (delete id (pipes s)) (heap s) (conn s) (orderValidator s)
                (hlValidator s) (loop_i s) (metadataBuffer s)
                (metadataParents s) (walker s), None)
    end
end.

(** *** The receiver as a whole

    The dispatch goroutine and the callbacks of the disk writer interleave
    at the granularity of the critical sections of [r.mu] and [r.muPipes]. *)
Inductive event :=
| EvRecv (r : recv)
| EvRequest (p : string) (wc : W) (send_err : option error)
| EvFinish (id : Z) (a : nat) (ctx_done : option error)
| EvCancel (e : error).

(** One [RecvMsg] of the dispatch goroutine, from where it stands. *)
Definition recv_step (o : outcome) (s : receiver) (r : recv)
  : outcome * receiver :=
match o with
| Receiving =>
    match r with
    | RecvErr e => (Returned (Some e), s)
    | RecvOk p =>
        match handle_packet s p with
        | Continue s' => (Receiving, s')
        | Abort s' e => (Returned (Some e), s')
        | Fin s' => (Draining, s')
        | Panic s' why => (Panicked why, s')
        end
    end
| Draining =>
    match r with
    | RecvOk _ => (Draining, s)
    | RecvErr e => (if is_EOF e then Returned None else Returned (Some e), s)
    end
| Returned _ | Panicked _ => (o, s)
end.

Definition step (sys : outcome * receiver) (ev : event)
  : outcome * receiver :=
let '(st, s) := sys in
match ev with
| EvRecv r => recv_step st s r
| EvRequest p wc send_err => (st, fst (asyncDataFunc_request s p wc send_err))
| EvFinish id a ctx_done =>
    match asyncDataFunc_finish s id a ctx_done with
    | Some (s', _) => (st, s')
    | None => (st, s)
    end
| EvCancel e => (st, set_walker s (fill_cancelled (walker s) e))
end.

Definition run_events (evs : list event) (sys : outcome * receiver)
  : outcome * receiver :=
fold_left step evs sys.

(** The identifiers of the [PACKET_REQ] packets sent so far. *)
Definition requested (s : receiver) : list Z :=
map ID
  (List.filter
     (fun p => match Type_ p with PACKET_REQ => true | _ => false end)
     (conn s)).

(** *** The end of [run]: persisting the metadata log

    [run] talks to the file system through four calls; their results are
    inputs, the calls made are the output. *)
Inductive open_flag := O_WRONLY | O_CREATE | O_TRUNC.

Inductive fs_call :=
| os_Remove (name : string)
| os_OpenFile (name : string) (flag : list open_flag) (perm : Z)
| buffer_WriteTo (data : list byte)
| file_Close.

Record fs_results := mkFsResults {
  OpenFile_err : option error;
  WriteTo_err : option error;
  Close_err : option error
}.

(** From [g.Wait()] to the end of [run]; [group_err] is what [g.Wait()]
    returned. *)
Definition run_epilogue (s : receiver) (group_err : option error)
  (fs : fs_results) : list fs_call * option error :=
let log := metadataBuffer s in
match group_err with
| Some e => ([], Some e)
| None =>
    if negb (metadataTransfer s) then ([], None)
    else
      let name := Join (dest s) metadataPath in
      let opening :=
        [os_Remove name; os_OpenFile name [O_WRONLY; O_CREATE; O_TRUNC] 420] in
      match OpenFile_err fs with
      | Some e => (opening, Some e)
      | None =>
          match WriteTo_err fs with
          | Some e => (opening ++ [buffer_WriteTo log; file_Close], Some e)
          | None => (opening ++ [buffer_WriteTo log; file_Close], Close_err fs)
          end
      end
end.

End Receiver.

(** ** The collaborators as the spec describes them *)

(** Modelled from the spec: [Validator] (validator.go) is not among the
    sources at hand.  The ordering validator maintains the last-seen path
    and rejects an incoming entry that is not strictly greater. *)
Record Validator := mkValidator { last_path : option string }.

Definition Validator_HandleChange (v : Validator) (kind : ChangeKind)
  (p : string) (fi : Stat) : Validator * option error :=
match last_path v with
| None => (mkValidator (Some p), None)
| Some q =>
    if String.ltb q p then (mkValidator (Some p), None)
    else (v, Some (ErrOther ("changes out of order: " +:+ p)))
end.

#[global] Instance Validator_handler : ChangeHandler Validator :=
  {| zero_value := mkValidator None; HandleChange := Validator_HandleChange |}.

(** Modelled from the spec: [Hardlinks] (hardlinks.go) is not among the
    sources at hand.  The hardlink validator maintains the set of paths
    seen so far that are eligible link targets, the regular entries, and
    rejects a hardlink entry (a link target on an entry that is not a
    symlink) whose target was not already seen. *)
Record Hardlinks := mkHardlinks { seen_files : gset string }.

Definition is_hardlink (fi : Stat) : bool :=
negb (String.eqb (Linkname fi) "") && (Z.land (Mode fi) ModeSymlink =? 0).

Definition Hardlinks_HandleChange (v : Hardlinks) (kind : ChangeKind)
  (p : string) (fi : Stat) : Hardlinks * option error :=
if is_hardlink fi && negb (bool_decide (Linkname fi ∈ seen_files v)) then
  (v, Some (ErrOther ("invalid hardlink to " +:+ Linkname fi)))
else if IsRegular (Mode fi) then (mkHardlinks ({[p]} ∪ seen_files v), None)
else (v, None).

#[global] Instance Hardlinks_handler : ChangeHandler Hardlinks :=
  {| zero_value := mkHardlinks ∅; HandleChange := Hardlinks_HandleChange |}.

(** An in-memory sink in the manner of a byte buffer behind a no-op
    closer: it never fails, and [Close] only counts. *)
Record bufferSink := mkBufferSink { written : list byte; closes : nat }.

#[global] Instance bufferSink_WriteCloser : WriteCloser bufferSink :=
  {| Write := fun b dt => (mkBufferSink (written b ++ dt) (closes b), None);
     Close := fun b => (mkBufferSink (written b) (S (closes b)), None) |}.

(** The environment of the examples.  Modelled from the spec:
    [fileCanRequestData] (send.go) is not among the sources at hand;
    content-eligible entries are the regular files.  The serializer is a
    stand-in that writes the bytes of the wire path. *)
Definition example_env (os : GOOS) : Env :=
{| goos := os;
   Dir := filepath_Dir os;
   Join := filepath_Join os;
   fileCanRequestData := IsRegular;
   SizeVT := fun st => Z.of_nat (String.length (Path st));
   MarshalToSizedBufferVT :=
     fun st _ => (list_byte_of_string (Path st), None) |}.

Definition dir_entry (p : string) : Stat :=
mkStat p (Z.lor ModeDir 493) 0 0 0 0 "" 0 0 [].

Definition file_entry (p : string) : Stat :=
mkStat p 420 0 0 0 0 "" 0 0 [].

Definition stat_packet (st : Stat) : Packet :=
mkPacket PACKET_STAT (Some st) 0 [].

Definition data_packet (id : Z) (dt : list byte) : Packet :=
mkPacket PACKET_DATA None id dt.

Definition plain_packet (t : PacketType) : Packet := mkPacket t None 0 [].

(** The receiver of the examples: validators and sink as above. *)
Definition example_receiver (MetadataOnly : option (string -> Stat -> bool))
  : @receiver Validator Hardlinks bufferSink :=
new_receiver "/dest" MetadataOnly.

(** The native paths forwarded to the walker feed. *)
Definition forwarded {OV HV W : Type} (s : @receiver OV HV W) : list string :=
map path (walkChan (walker s)).

(** The dispatch loop and the whole receiver on the two platforms. *)
Definition dispatch_on (os : GOOS) :=
dispatch (env := example_env os) (OV := Validator) (HV := Hardlinks)
  (W := bufferSink).

Definition run_events_on (os : GOOS) :=
run_events (env := example_env os) (OV := Validator) (HV := Hardlinks)
  (W := bufferSink).

Definition stats (sts : list Stat) : list recv :=
map (fun st => RecvOk (stat_packet st)) sts.

(** Filters of the examples. *)
Definition accept_all : option (string -> Stat -> bool) :=
Some (fun _ _ => true).

Definition accept_only (name : string) : option (string -> Stat -> bool) :=
Some (fun p _ => String.eqb p name).

(** The state an iteration leaves behind, however it ends. *)
Definition state_of {S : Type} (r : iter_result S) : S :=
match r with
| Continue s | Abort s _ | Fin s | Panic s _ => s
end.

(** A walker nobody has closed or cancelled. *)
Definition walker_open (w : dynamicWalker) : Prop :=
closeCh_closed w = false /\ walkChan_closed w = false.

(** Two receiver states that differ at most in the walker feed and in the
    ancestor stack that is replayed into it. *)
Definition same_but_feed {OV HV W : Type} (s s' : @receiver OV HV W) : Prop :=
dest s' = dest s /\ metadataOnly s' = metadataOnly s /\
files s' = files s /\ pipes s' = pipes s /\ heap s' = heap s /\
conn s' = conn s /\ orderValidator s' = orderValidator s /\
hlValidator s' = hlValidator s /\ loop_i s' = loop_i s /\
metadataBuffer s' = metadataBuffer s.

(** Two receiver states that differ at most in the pending table and in
    what [same_but_feed] leaves open. *)
Definition same_but_pending_and_feed {OV HV W : Type}
  (s s' : @receiver OV HV W) : Prop :=
dest s' = dest s /\ metadataOnly s' = metadataOnly s /\
pipes s' = pipes s /\ heap s' = heap s /\ conn s' = conn s /\
orderValidator s' = orderValidator s /\ hlValidator s' = hlValidator s /\
loop_i s' = loop_i s /\ metadataBuffer s' = metadataBuffer s.

(** ** Vocabulary of the statements *)

Section ReceiverSpec.
Context {env : Env}.
Context {OV HV W : Type}.
Context {order_handler : ChangeHandler OV}.
Context {hl_handler : ChangeHandler HV}.

Implicit Types (s : @receiver OV HV W) (st : Stat).

(** The receiver right after the validators accepted the entry. *)
Definition validated s st (native : string) (log : list byte)
  (metaOnly : bool) : @receiver OV HV W :=
let st' := normalize st native in
mkReceiver (dest s) (metadataOnly s)
  (if negb metaOnly && fileCanRequestData (Mode st')
   then <[native := loop_i s]> (files s) else files s)
  (pipes s) (heap s) (conn s)
  (fst (HandleChange (orderValidator s) ChangeKindAdd native st'))
  (fst (HandleChange (hlValidator s) ChangeKindAdd native st'))
  (uint32 (loop_i s + 1)) log (metadataParents s) (walker s).

(** The entry gets past the path check, the reserved-name check and the
    serializer, and so reaches the identifier counter. *)
Definition consumed s st : bool :=
let native := FromSlash goos (Path st) in
String.eqb (ToSlash goos native) (Path st) &&
match metadataOnly s with
| None => true
| Some _ =>
    negb (String.eqb native metadataPath) &&
    match snd (frame st) with None => true | Some _ => false end
end.

(** [metaOnly] as the [PACKET_STAT] case computes it: the configured
    filter turned the entry down. *)
Definition metaOnly_of s st : bool :=
match metadataOnly s with
| None => false
| Some filter => negb (filter (FromSlash goos (Path st)) st)
end.

(** The metadata log once the entry has been framed into it. *)
Definition log_after s st : list byte :=
match metadataOnly s with
| None => metadataBuffer s
| Some _ => metadataBuffer s ++ fst (frame st)
end.

(** A receive result that carries a Stat entry which is not passed over
    as the reserved name; [mt] says whether a metadata-only filter is
    configured. *)
Definition counted (mt : bool) (r : recv) : bool :=
match r with
| RecvOk p =>
    match Type_ p, Stat_ p with
    | PACKET_STAT, Some st =>
        negb (mt && String.eqb (FromSlash goos (Path st)) metadataPath)
    | _, _ => false
    end
| RecvErr _ => false
end.

(** The number of entries counted in a stream. *)
Definition count (mt : bool) (rs : list recv) : Z :=
Z.of_nat (length (List.filter (counted mt) rs)).

(** The native paths of the counted entries of a stream, in order. *)
Definition counted_paths (mt : bool) (rs : list recv) : list string :=
flat_map
  (fun r =>
     match r with
     | RecvOk (mkPacket PACKET_STAT (Some st) _ _) =>
         if counted mt r then [FromSlash goos (Path st)] else []
     | _ => []
     end) rs.

(** The invariant behind at-most-once requests: pending identifiers lie
    below the counter and belong to one path each, requested identifiers
    lie below the counter and are no longer pending, and no identifier has
    been requested twice. *)
Definition pending_ok s : Prop :=
(forall p id, files s !! p = Some id -> 0 <= id < loop_i s) /\
(forall p q id, files s !! p = Some id -> files s !! q = Some id -> p = q) /\
(forall id, id ∈ requested s ->
   0 <= id < loop_i s /\ forall p, files s !! p <> Some id) /\
NoDup (requested s).

(** Every pointer in the sink table points into the heap. *)
Definition pipes_allocated s : Prop :=
forall id a, pipes s !! id = Some a -> (a < length (heap s))%nat.

End ReceiverSpec.

(** A list of paths in strictly increasing byte order, each above [prev]
    when there is one. *)
Fixpoint increasing (prev : option string) (ps : list string) : bool :=
match ps with
| [] => true
| p :: rest =>
    match prev with
    | None => true
    | Some q => String.ltb q p
    end && increasing (Some p) rest
end.

(** ** Vocabulary of the statements about the remaining code *)

(** [n] pops in a row: the values popped, the first popped first, and the
    stack that is left; popping stops at the empty stack. *)
Fixpoint pops {T : Type} (n : nat) (s : stack T) : list T * stack T :=
match n with
| O => ([], s)
| S k =>
    match pop s with
    | (Some v, s') => let '(vs, s'') := pops k s' in (v :: vs, s'')
    | (None, s') => ([], s')
    end
end.

(** Pushes in a row. *)
Definition pushes {T : Type} (s : stack T) (vs : list T) : stack T :=
fold_left push vs s.

(** Whether a path holds the byte [c]. *)
Fixpoint contains (c : ascii) (s : string) : bool :=
match s with
| EmptyString => false
| String d rest => Ascii.eqb d c || contains c rest
end.

(** How the walker can differ between two moments: the feed only grows
    at its end, and not at all once [fill] has seen the cancellation; a
    cancelled walker stays cancelled and a closed feed stays closed. *)
Definition feed_grows (w w' : dynamicWalker) : Prop :=
(exists new,
   walkChan w' = walkChan w ++ new /\
   (closeCh_closed w = true -> new = [])) /\
(closeCh_closed w = true -> closeCh_closed w' = true) /\
(walkChan_closed w = true -> walkChan_closed w' = true).

(** Two receiver states that differ at most in the sinks and in whether
    the feed has been closed. *)
Definition same_bookkeeping {OV HV W : Type} (s s' : @receiver OV HV W)
  : Prop :=
dest s' = dest s /\ metadataOnly s' = metadataOnly s /\
files s' = files s /\ pipes s' = pipes s /\ conn s' = conn s /\
orderValidator s' = orderValidator s /\ hlValidator s' = hlValidator s /\
loop_i s' = loop_i s /\ metadataBuffer s' = metadataBuffer s /\
metadataParents s' = metadataParents s /\
walkChan (walker s') = walkChan (walker s) /\
closeCh_closed (walker s') = closeCh_closed (walker s).

Section ReceiverSpecMore.
Context {env : Env}.
Context {OV HV W : Type}.
Context {order_handler : ChangeHandler OV}.
Context {hl_handler : ChangeHandler HV}.

Implicit Types (s : @receiver OV HV W) (st : Stat).

(** A stack of directories, bottom first, each the [filepath.Dir] of the
    one above it. *)
Fixpoint ancestor_chain (its : list currentPath) : bool :=
match its with
| [] => true
| x :: rest =>
    IsDir (Mode (stat x)) &&
    match rest with
    | [] => true
    | y :: _ => String.eqb (path x) (Dir (path y))
    end && ancestor_chain rest
end.

(** The counted entries of a stream, in order. *)
Definition counted_stats (mt : bool) (rs : list recv) : list Stat :=
flat_map
  (fun r =>
     match r with
     | RecvOk (mkPacket PACKET_STAT (Some st) _ _) =>
         if counted mt r then [st] else []
     | _ => []
     end) rs.

(** The [currentPath] the [PACKET_STAT] case builds for an entry. *)
Definition entry_of st : currentPath :=
mkCurrentPath (FromSlash goos (Path st))
  (normalize st (FromSlash goos (Path st))).

(** The frames of a list of entries, one after the other. *)
Definition log_of (sts : list Stat) : list byte :=
flat_map (fun st => fst (frame st)) sts.

(** A validator shown a list of entries in order, as the [PACKET_STAT]
    case shows them to it. *)
Definition observe_all {V : Type} {handler : ChangeHandler V} (v : V)
  (sts : list Stat) : V :=
fold_left
  (fun v st =>
     fst (HandleChange v ChangeKindAdd (path (entry_of st))
            (stat (entry_of st)))) sts v.

End ReceiverSpecMore.

(** What a sink has taken after the chunks of a file were written to it
    one by one; writing stops at the first error. *)
Fixpoint write_all {W : Type} {sink : WriteCloser W} (wc : W)
  (chunks : list (list byte)) : W * option error :=
match chunks with
| [] => (wc, None)
| dt :: rest =>
    match Write wc dt with
    | (wc', Some e) => (wc', Some e)
    | (wc', None) => write_all wc' rest
    end
end.

(** * Properties *)

Section ReceiverFacts.
Context {env : Env}.
Context {OV HV W : Type}.
Context {order_handler : ChangeHandler OV}.
Context {hl_handler : ChangeHandler HV}.
Context {sink : WriteCloser W}.

Implicit Types (s : @receiver OV HV W) (st : Stat) (p : Packet).
Implicit Types (w : dynamicWalker) (cp : currentPath).

(** ** The walker feed *)

Lemma update_open w cp :
  walker_open w ->
  update w (Some cp) =
    Updated (mkWalker (walkChan w ++ [cp]) false (err w) false) None.
Proof.
  intros [Hc Hw]. unfold update. rewrite Hc, Hw. reflexivity.
Qed.

Lemma replay_open its : forall w,
  walker_open w ->
  replay its w =
    Updated (mkWalker (walkChan w ++ its) false (err w) false) None.
Proof.
  induction its as [|cp rest IH]; intros w Hopen; simpl.
  - rewrite app_nil_r. destruct w as [ch cl e cc], Hopen as [Hc Hw].
    simpl in *. subst. reflexivity.
  - rewrite (update_open w cp Hopen). rewrite IH by (split; reflexivity).
    simpl. rewrite <- app_assoc. reflexivity.
Qed.

Lemma forward_open s cp :
  walker_open (walker s) ->
  forward s cp =
    Continue (set_walker s
      (mkWalker (walkChan (walker s) ++ [cp]) false (err (walker s)) false)).
Proof.
  intros Hopen. unfold forward. rewrite (update_open _ cp Hopen). reflexivity.
Qed.

(** ** The ancestor stack *)

Lemma pop_items (stk : stack currentPath) l x :
  items stk = l ++ [x] -> pop stk = (Some x, mkStack l).
Proof.
  intros E. unfold pop. rewrite E, last_snoc, removelast_last. reflexivity.
Qed.

Lemma peek_items (stk : stack currentPath) l x :
  items stk = l ++ [x] -> peek stk = Some x.
Proof. intros E. unfold peek. rewrite E. apply last_snoc. Qed.

(** The trimming loop runs to its exit condition: with as many passes as
    the stack has elements it stops on an empty stack or on a top whose
    path is the parent looked for, and it only ever removes from the top. *)
Lemma trim_parents_exit parent : forall its fuel,
  (length its <= fuel)%nat ->
  let out := trim_parents fuel parent (mkStack its) in
  (exists dropped, its = items out ++ dropped) /\
  match peek out with
  | None => items out = []
  | Some top => path top = parent
  end.
Proof.
  induction its as [|x l IH] using rev_ind; intros fuel Hlen.
  - simpl. destruct fuel; simpl;
      (split; [exists []; reflexivity | reflexivity]).
  - rewrite length_app in Hlen. simpl in Hlen.
    destruct fuel as [|fuel]; [lia|]. simpl.
    rewrite (peek_items (mkStack (l ++ [x])) l x eq_refl).
    destruct (String.eqb parent (path x)) eqn:E.
    + split; [exists []; simpl; rewrite app_nil_r; reflexivity|].
      rewrite (peek_items (mkStack (l ++ [x])) l x eq_refl).
      apply String.eqb_eq in E. congruence.
    + rewrite (pop_items (mkStack (l ++ [x])) l x eq_refl). simpl.
      destruct (IH fuel ltac:(lia)) as [[d Hd] Hpk]. split; [|exact Hpk].
      exists (d ++ [x]). rewrite app_assoc, <- Hd. reflexivity.
Qed.

(** ** Forwarding *)

Lemma same_but_feed_refl s : same_but_feed s s.
Proof. repeat split. Qed.

Lemma forward_same s cp : same_but_feed s (state_of (forward s cp)).
Proof.
  unfold forward. destruct (update (walker s) (Some cp)) as [w' [e|]|why];
    simpl; repeat split.
Qed.

Lemma same_but_feed_trans s1 s2 s3 :
  same_but_feed s1 s2 -> same_but_feed s2 s3 -> same_but_feed s1 s3.
Proof. unfold same_but_feed. intuition congruence. Qed.

Lemma replay_parents_same s cp metaOnly :
  same_but_feed s (state_of (replay_parents s cp metaOnly)).
Proof.
  unfold replay_parents. destruct metaOnly; [repeat split|].
  match goal with
  | |- context [replay ?l ?w] => destruct (replay l w) as [w' [e|]|why]
  end.
  - repeat split.
  - eapply same_but_feed_trans; [|apply forward_same]. repeat split.
  - repeat split.
Qed.

(** A rejected entry is not forwarded: the feed is as before, and the
    stack holds the trimmed ancestors, with the entry on top when it is a
    directory. *)
Lemma replay_parents_rejected s cp :
  replay_parents s cp true =
    Continue (set_metadataParents s
      (let st1 := trim_parents (length (items (metadataParents s)))
                    (Dir (path cp)) (metadataParents s) in
       if IsDir (Mode (stat cp)) then push st1 cp else st1)).
Proof. reflexivity. Qed.

(** An accepted entry on an open feed: the trimmed ancestors are forwarded
    in push order and the stack is cleared, then the entry is forwarded.
    When the entry is a directory it has been pushed before the replay and
    so is part of what is replayed. *)
Lemma replay_parents_accepted s cp :
  walker_open (walker s) ->
  let st1 := trim_parents (length (items (metadataParents s)))
               (Dir (path cp)) (metadataParents s) in
  exists s',
    replay_parents s cp false = Continue s' /\
    same_but_feed s s' /\
    items (metadataParents s') = [] /\
    walkChan (walker s') =
      walkChan (walker s) ++ items st1 ++
      (if IsDir (Mode (stat cp)) then [cp; cp] else [cp]).
Proof.
  intros Hopen st1. unfold replay_parents. fold st1.
  set (st2 := if IsDir (Mode (stat cp)) then push st1 cp else st1).
  simpl walker. rewrite (replay_open (items st2) (walker s) Hopen).
  rewrite forward_open by (split; reflexivity).
  eexists; split; [reflexivity|]. simpl. split; [repeat split|].
  split; [reflexivity|]. subst st2.
  destruct (IsDir (Mode (stat cp))); simpl; rewrite <- !app_assoc; reflexivity.
Qed.

(** ** A Stat entry past the path check *)

(** The ordering validator is asked first; when it rejects, the loop
    returns its error, the hardlink validator has not been asked and
    nothing has been forwarded. *)
Lemma accept_stat_order_rejects s st native log metaOnly e :
  snd (HandleChange (orderValidator s) ChangeKindAdd native
         (normalize st native)) = Some e ->
  exists s',
    accept_stat s st native log metaOnly = Abort s' e /\
    hlValidator s' = hlValidator s /\
    walker s' = walker s /\ metadataParents s' = metadataParents s.
Proof.
  intros H. unfold accept_stat. simpl.
  destruct (HandleChange (orderValidator s) _ _ _) as [ov e1]. simpl in H.
  subst e1. eexists; split; [reflexivity|]. repeat split.
Qed.

(** When the ordering validator accepts and the hardlink validator
    rejects, the loop returns that error and nothing has been forwarded. *)
Lemma accept_stat_hardlink_rejects s st native log metaOnly e :
  snd (HandleChange (orderValidator s) ChangeKindAdd native
         (normalize st native)) = None ->
  snd (HandleChange (hlValidator s) ChangeKindAdd native
         (normalize st native)) = Some e ->
  exists s',
    accept_stat s st native log metaOnly = Abort s' e /\
    walker s' = walker s /\ metadataParents s' = metadataParents s.
Proof.
  intros H1 H2. unfold accept_stat. simpl.
  destruct (HandleChange (orderValidator s) _ _ _) as [ov e1]. simpl in H1.
  destruct (HandleChange (hlValidator s) _ _ _) as [hv e2]. simpl in H2.
  subst e1 e2. eexists; split; [reflexivity|]. repeat split.
Qed.

(** Only when both accepted does the entry go on to the feed. *)
Lemma accept_stat_validated s st native log metaOnly :
  snd (HandleChange (orderValidator s) ChangeKindAdd native
         (normalize st native)) = None ->
  snd (HandleChange (hlValidator s) ChangeKindAdd native
         (normalize st native)) = None ->
  accept_stat s st native log metaOnly =
    let s2 := validated s st native log metaOnly in
    let cp := mkCurrentPath native (normalize st native) in
    if metadataTransfer s then replay_parents s2 cp metaOnly
    else forward s2 cp.
Proof.
  intros H1 H2. unfold accept_stat, validated. simpl.
  destruct (HandleChange (orderValidator s) _ _ _) as [ov e1]. simpl in H1.
  destruct (HandleChange (hlValidator s) _ _ _) as [hv e2]. simpl in H2.
  subst e1 e2. reflexivity.
Qed.

(** What an entry past the path check does to the bookkeeping, however the
    iteration ends. *)
Lemma accept_stat_bookkeeping s st native log metaOnly :
  let st' := normalize st native in
  let s' := state_of (accept_stat s st native log metaOnly) in
  dest s' = dest s /\ metadataOnly s' = metadataOnly s /\
  pipes s' = pipes s /\ heap s' = heap s /\ conn s' = conn s /\
  loop_i s' = uint32 (loop_i s + 1) /\
  metadataBuffer s' = log /\
  files s' = (if negb metaOnly && fileCanRequestData (Mode st)
              then <[native := loop_i s]> (files s) else files s) /\
  orderValidator s' =
    fst (HandleChange (orderValidator s) ChangeKindAdd native st') /\
  hlValidator s' =
    match snd (HandleChange (orderValidator s) ChangeKindAdd native st') with
    | Some _ => hlValidator s
    | None => fst (HandleChange (hlValidator s) ChangeKindAdd native st')
    end.
Proof.
  intros st' s'. subst s'. unfold accept_stat. fold st'. simpl path. simpl stat.
  destruct (HandleChange (orderValidator s) _ _ _) as [ov [e1|]]; simpl;
    [repeat split|].
  destruct (HandleChange (hlValidator s) _ _ _) as [hv [e2|]]; simpl;
    [repeat split|].
  match goal with
  | |- context [if _ then replay_parents ?x ?c ?m else _] =>
      pose proof (replay_parents_same x c m) as R;
      pose proof (forward_same x c) as F
  end.
  destruct (metadataTransfer s); [revert R | revert F];
    unfold same_but_feed; simpl; intuition congruence.
Qed.

(** ** Iterations that leave the state alone *)

Lemma handle_stat_unrepresentable s st :
  ToSlash goos (FromSlash goos (Path st)) <> Path st ->
  handle_stat s st = Abort s (PathError "unrepresentable path" (Path st)).
Proof.
  intros Hne. unfold handle_stat.
  destruct (String.eqb _ _) eqn:E; [|reflexivity].
  apply String.eqb_eq in E. contradiction.
Qed.

Lemma reserved_name_round_trips wire :
  FromSlash goos wire = metadataPath ->
  ToSlash goos (FromSlash goos wire) = wire.
Proof.
  unfold FromSlash, ToSlash. destruct goos; simpl; [reflexivity|].
  intros E. rewrite E.
  assert (wire = metadataPath) as ->; [|reflexivity].
  revert E. unfold metadataPath.
  repeat (destruct wire as [|c wire]; simpl; [discriminate|];
          destruct (Ascii.eqb_spec c "/"); [discriminate|];
          intros E; injection E as -> E; revert E).
  destruct wire; [reflexivity|discriminate].
Qed.

Lemma drain_packets_then_error ps e rest :
  drain (map RecvOk ps ++ RecvErr e :: rest) =
    if is_EOF e then Returned None else Returned (Some e).
Proof. induction ps; simpl; auto. Qed.

Lemma handle_stat_consumed s st :
  consumed s st = true ->
  handle_stat s st =
    accept_stat s st (FromSlash goos (Path st)) (log_after s st)
      (metaOnly_of s st).
Proof.
  unfold consumed, handle_stat, log_after, metaOnly_of. intros H.
  apply andb_true_iff in H as [Hrt H]. rewrite Hrt. simpl.
  destruct (metadataOnly s) as [filter|]; [|reflexivity].
  apply andb_true_iff in H as [Hres Hser].
  apply negb_true_iff in Hres. rewrite Hres.
  destruct (frame st) as [rec [e|]]; [discriminate|reflexivity].
Qed.

(** An entry stopped before the counter leaves counter, table, validators
    and feed as they were. *)
Lemma handle_stat_not_consumed s st :
  consumed s st = false ->
  let s' := state_of (handle_stat s st) in
  loop_i s' = loop_i s /\ files s' = files s /\ conn s' = conn s /\
  metadataOnly s' = metadataOnly s /\
  orderValidator s' = orderValidator s /\ hlValidator s' = hlValidator s /\
  walker s' = walker s /\
  forall s'', handle_stat s st = Continue s'' -> s'' = s.
Proof.
  unfold consumed, handle_stat. intros H.
  destruct (String.eqb (ToSlash goos _) _); simpl in *;
    [|repeat split; discriminate].
  destruct (metadataOnly s) as [filter|] eqn:Hmo; [|discriminate].
  destruct (String.eqb (FromSlash goos (Path st)) metadataPath); simpl in *;
    [repeat split; congruence|].
  destruct (frame st) as [rec [e|]]; simpl in *; [|discriminate].
  repeat split; first [assumption | discriminate].
Qed.

(** Unless it is passed over as the reserved name, an entry stopped before
    the counter ends the loop with an error. *)
Lemma handle_stat_stopped s st :
  consumed s st = false ->
  metadataTransfer s && String.eqb (FromSlash goos (Path st)) metadataPath
    = false ->
  exists s' e, handle_stat s st = Abort s' e /\ walker s' = walker s.
Proof.
  unfold consumed, handle_stat, metadataTransfer. intros H Hres.
  destruct (String.eqb (ToSlash goos _) _); simpl in *;
    [|eexists _, _; split; reflexivity].
  destruct (metadataOnly s) as [filter|] eqn:Hmo; [|discriminate].
  simpl in Hres. rewrite Hres in *. simpl in *.
  destruct (frame st) as [rec [e|]]; simpl in *; [|discriminate].
  eexists _, _; split; reflexivity.
Qed.

(** What any iteration does to the counter and to the pending table. *)
Lemma handle_packet_tables s p :
  let s' := state_of (handle_packet s p) in
  conn s' = conn s /\ metadataOnly s' = metadataOnly s /\
  ((loop_i s' = loop_i s /\ files s' = files s) \/
   (loop_i s' = uint32 (loop_i s + 1) /\
    (files s' = files s \/
     exists native, files s' = <[native := loop_i s]> (files s)))).
Proof.
  unfold handle_packet.
  destruct (Type_ p); simpl; try (repeat split; left; split; reflexivity).
  - destruct (Stat_ p) as [st|].
    + destruct (consumed s st) eqn:C.
      * rewrite (handle_stat_consumed s st C).
        pose proof (accept_stat_bookkeeping s st (FromSlash goos (Path st))
                      (log_after s st) (metaOnly_of s st)) as B.
        simpl in B. destruct B as (_ & Hmo & _ & _ & Hc & Hi & _ & Hf & _).
        repeat split; try assumption. right. split; [assumption|].
        rewrite Hf.
        destruct (_ && _); [right; eexists; reflexivity|left; reflexivity].
      * pose proof (handle_stat_not_consumed s st C) as B. simpl in B.
        destruct B as (Hi & Hf & Hc & Hmo & _).
        repeat split; try assumption. left. split; assumption.
    + destruct (update (walker s) None) as [w' [e|]|why]; simpl;
        repeat split; left; split; reflexivity.
  - unfold handle_data. destruct (pipes s !! ID p); simpl;
      [|repeat split; left; split; reflexivity].
    destruct (heap s !! n) as [pw|]; simpl;
      [|repeat split; left; split; reflexivity].
    destruct (if (length (Data p) =? 0)%nat then _ else _) as [pw' [e|]];
      simpl; repeat split; left; split; reflexivity.
Qed.

(** An iteration after which the loop goes on has counted the packet or
    left the counter alone. *)
Lemma handle_packet_continue_counter s p s' :
  handle_packet s p = Continue s' ->
  metadataOnly s' = metadataOnly s /\
  loop_i s' =
    if counted (metadataTransfer s) (RecvOk p) then uint32 (loop_i s + 1)
    else loop_i s.
Proof.
  intros H. pose proof (handle_packet_tables s p) as T. rewrite H in T.
  simpl in T. destruct T as (_ & Hmo & _). split; [assumption|].
  revert H. unfold handle_packet, counted.
  destruct (Type_ p); try discriminate; try (intros [= <-]; reflexivity).
  - destruct (Stat_ p) as [st|].
    + destruct (consumed s st) eqn:C.
      * intros H.
        pose proof (accept_stat_bookkeeping s st (FromSlash goos (Path st))
                      (log_after s st) (metaOnly_of s st)) as B.
        rewrite <- (handle_stat_consumed s st C), H in B. simpl in B.
        destruct B as (_ & _ & _ & _ & _ & Hi & _). rewrite Hi.
        unfold consumed in C. apply andb_true_iff in C as [_ C].
        unfold metadataTransfer. destruct (metadataOnly s); [|reflexivity].
        apply andb_true_iff in C as [C _]. simpl. rewrite C. reflexivity.
      * intros H. pose proof (handle_stat_not_consumed s st C) as B.
        simpl in B. destruct B as (_ & _ & _ & _ & _ & _ & _ & B).
        specialize (B s' H). subst s'. revert H C.
        unfold handle_stat, consumed.
        destruct (String.eqb (ToSlash goos _) _); simpl; [|discriminate].
        unfold metadataTransfer.
        destruct (metadataOnly s) as [filter|]; [|discriminate].
        destruct (String.eqb (FromSlash goos (Path st)) metadataPath);
          [reflexivity|]. simpl.
        destruct (frame st) as [rec [e|]]; simpl; discriminate.
    + destruct (update (walker s) None) as [w' [e|]|why]; try discriminate.
      intros [= <-]. reflexivity.
  - unfold handle_data. destruct (pipes s !! ID p); [|discriminate].
    destruct (heap s !! n) as [pw|]; [|discriminate].
    destruct (if (length (Data p) =? 0)%nat then _ else _) as [pw' [e|]];
      [discriminate|]. intros [= <-]. reflexivity.
Qed.

Lemma uint32_succ_idem a : uint32 (uint32 a + 1) = uint32 (a + 1).
Proof. unfold uint32. apply Z.add_mod_idemp_l. discriminate. Qed.

Lemma uint32_small a : 0 <= a < uint32_max -> uint32 a = a.
Proof. apply Z.mod_small. Qed.

Lemma drain_not_receiving rs : drain rs <> Receiving.
Proof.
  induction rs as [|[q|e] rs IH]; simpl;
    [discriminate | exact IH | destruct (is_EOF e); discriminate].
Qed.

Lemma count_cons mt r rs :
  count mt (r :: rs) = (if counted mt r then 1 else 0) + count mt rs.
Proof.
  unfold count. simpl. destruct (counted mt r); simpl length; lia.
Qed.

Lemma count_nonneg mt rs : 0 <= count mt rs.
Proof. unfold count. lia. Qed.

(** The counter after a stream that leaves the loop receiving. *)
Lemma dispatch_counter rs : forall s s',
  dispatch rs s = (s', Receiving) ->
  metadataOnly s' = metadataOnly s /\
  uint32 (loop_i s') = uint32 (loop_i s + count (metadataTransfer s) rs).
Proof.
  induction rs as [|[p|e] rs IH]; intros s s' H; simpl in H.
  - injection H as <-. split; [reflexivity|]. unfold count. simpl.
    rewrite Z.add_0_r. reflexivity.
  - destruct (handle_packet s p) as [s1|s1 e|s1|s1 why] eqn:E.
    + destruct (handle_packet_continue_counter s p s1 E) as [Hmo Hi].
      destruct (IH s1 s' H) as [Hmo' Hi']. split; [congruence|].
      rewrite Hi', count_cons. unfold metadataTransfer at 1. rewrite Hmo.
      fold (metadataTransfer s). rewrite Hi.
      destruct (counted (metadataTransfer s) (RecvOk p)).
      * unfold uint32. rewrite Zplus_mod_idemp_l. f_equal; lia.
      * f_equal; lia.
    + discriminate.
    + exfalso. injection H as _ H. exact (drain_not_receiving rs H).
    + discriminate.
  - discriminate.
Qed.

Lemma handle_packet_range s p :
  0 <= loop_i s < uint32_max ->
  0 <= loop_i (state_of (handle_packet s p)) < uint32_max.
Proof.
  intros R. destruct (handle_packet_tables s p) as (_ & _ & [[-> _]|[-> _]]);
    [exact R|]. apply Z.mod_pos_bound. reflexivity.
Qed.

Lemma dispatch_range rs : forall s,
  0 <= loop_i s < uint32_max ->
  0 <= loop_i (fst (dispatch rs s)) < uint32_max.
Proof.
  induction rs as [|[p|e] rs IH]; intros s R; simpl; [exact R| |exact R].
  pose proof (handle_packet_range s p R) as R'.
  destruct (handle_packet s p); simpl in *; auto.
Qed.

(** ** The dispatch loop on a stream *)

Lemma dispatch_app rs1 : forall rs2 s s1,
  dispatch rs1 s = (s1, Receiving) ->
  dispatch (rs1 ++ rs2) s = dispatch rs2 s1.
Proof.
  induction rs1 as [|r rs1 IH]; intros rs2 s s1 H; simpl in *.
  - injection H as ->. reflexivity.
  - destruct r as [p|e]; [|discriminate].
    destruct (handle_packet s p) eqn:E; try discriminate.
    + apply IH. exact H.
    + exfalso. injection H as _ H. clear -H.
      induction rs1 as [|[q|e] rs1 IH]; simpl in H;
        [discriminate | auto | destruct (is_EOF e); discriminate].
Qed.

(** [dispatch] is [recv_step] iterated from the head of the loop. *)
Lemma recv_steps_stopped rs : forall o s,
  o <> Receiving -> o <> Draining ->
  fold_left (fun sys r => recv_step (fst sys) (snd sys) r) rs (o, s) = (o, s).
Proof.
  induction rs as [|r rs IH]; intros o s H1 H2; [reflexivity|]. simpl.
  destruct o; try congruence; apply IH; assumption.
Qed.

Lemma recv_steps_draining rs : forall s,
  fold_left (fun sys r => recv_step (fst sys) (snd sys) r) rs (Draining, s) =
    (drain rs, s).
Proof.
  induction rs as [|[q|e] rs IH]; intros s; simpl; [reflexivity|apply IH|].
  destruct (is_EOF e); apply recv_steps_stopped; discriminate.
Qed.

Lemma dispatch_recv_steps rs : forall s,
  fold_left (fun sys r => recv_step (fst sys) (snd sys) r) rs (Receiving, s) =
    (snd (dispatch rs s), fst (dispatch rs s)).
Proof.
  induction rs as [|[p|e] rs IH]; intros s; simpl; [reflexivity| |].
  - destruct (handle_packet s p) eqn:E; simpl.
    + apply IH.
    + apply recv_steps_stopped; discriminate.
    + apply recv_steps_draining.
    + apply recv_steps_stopped; discriminate.
  - apply recv_steps_stopped; discriminate.
Qed.

(** C6.  A non-empty Stat packet whose wire path does not survive the
    conversion to the native form and back makes the dispatch loop return a
    [PathError] for that wire path; the receiver is left exactly as it was
    before the packet: nothing was logged, validated, numbered, recorded or
    forwarded. *)
Theorem C6_unrepresentable_path_aborts s p st rest :
  Type_ p = PACKET_STAT ->
  Stat_ p = Some st ->
  ToSlash goos (FromSlash goos (Path st)) <> Path st ->
  dispatch (RecvOk p :: rest) s =
    (s, Returned (Some (PathError "unrepresentable path" (Path st)))) /\
  Error (PathError "unrepresentable path" (Path st)) =
    "unrepresentable path " +:+ Path st +:+ ": invalid argument".
Proof.
  intros Ht Hs Hne. split; [|reflexivity].
  simpl. unfold handle_packet. rewrite Ht, Hs.
  rewrite (handle_stat_unrepresentable s st Hne). reflexivity.
Qed.

(** C7, as amended.  An Error packet makes the dispatch loop return at
    once, the receiver untouched, with an error whose text is the carried
    message behind the prefix [error from sender: ]. *)
Theorem C7_error_packet_aborts s p rest :
  Type_ p = PACKET_ERR ->
  dispatch (RecvOk p :: rest) s =
    (s, Returned (Some (ErrFromSender (Data p)))) /\
  Error (ErrFromSender (Data p)) =
    "error from sender: " +:+ string_of_list_byte (Data p).
Proof.
  intros Ht. split; [|reflexivity].
  simpl. unfold handle_packet. rewrite Ht. reflexivity.
Qed.

(** C8.  Once the dispatch loop, still receiving, gets a Finish packet, the
    receiver state never changes again whatever packets follow: they are
    received and dropped.  The loop returns at the first failing receive,
    without error on end-of-stream and with the failure otherwise. *)
Theorem C8_finish_drains pre s0 s p ps e rest :
  dispatch pre s0 = (s, Receiving) ->
  Type_ p = PACKET_FIN ->
  dispatch (pre ++ RecvOk p :: map RecvOk ps) s0 = (s, Draining) /\
  dispatch (pre ++ RecvOk p :: map RecvOk ps ++ RecvErr e :: rest) s0 =
    (s, if is_EOF e then Returned None else Returned (Some e)).
Proof.
  intros Hpre Ht.
  rewrite !(dispatch_app pre _ s0 s Hpre). simpl.
  unfold handle_packet. rewrite Ht. split.
  - f_equal. induction ps; simpl; auto.
  - rewrite drain_packets_then_error. reflexivity.
Qed.

(** C9.  With a metadata-only filter configured, a Stat entry whose native
    path is the reserved name is passed over with the receiver untouched;
    and when the goroutines of [run] ended without error, [run] removes the
    reserved name under the destination root, opens it for writing with
    create and truncate, writes the whole metadata log into it and closes
    it, returning what the close returned. *)
Theorem C9_reserved_metadata_name s filter :
  metadataOnly s = Some filter ->
  (forall p st,
     Type_ p = PACKET_STAT -> Stat_ p = Some st ->
     FromSlash goos (Path st) = metadataPath ->
     handle_packet s p = Continue s) /\
  (forall fs,
     OpenFile_err fs = None -> WriteTo_err fs = None ->
     run_epilogue s None fs =
       ([os_Remove (Join (dest s) metadataPath);
         os_OpenFile (Join (dest s) metadataPath)
           [O_WRONLY; O_CREATE; O_TRUNC] 420;
         buffer_WriteTo (metadataBuffer s);
         file_Close], Close_err fs)).
Proof.
  intros Hmo. split.
  - intros p st Ht Hs Hres. unfold handle_packet. rewrite Ht, Hs.
    unfold handle_stat. rewrite (reserved_name_round_trips _ Hres).
    rewrite String.eqb_refl. simpl. rewrite Hmo, Hres. reflexivity.
  - intros fs Ho Hw. unfold run_epilogue, metadataTransfer.
    rewrite Hmo, Ho, Hw. reflexivity.
Qed.

(** An entry the metadata-only filter accepts, on an open feed and past
    both validators: the trimmed ancestors are forwarded in push order, the
    stack is cleared, and the entry follows, once when it is not a
    directory and twice when it is. *)
Lemma handle_stat_accepted s filter st :
  metadataOnly s = Some filter ->
  consumed s st = true ->
  let native := FromSlash goos (Path st) in
  let fi := normalize st native in
  let cp := mkCurrentPath native fi in
  filter native st = true ->
  snd (HandleChange (orderValidator s) ChangeKindAdd native fi) = None ->
  snd (HandleChange (hlValidator s) ChangeKindAdd native fi) = None ->
  walker_open (walker s) ->
  exists s',
    handle_stat s st = Continue s' /\
    items (metadataParents s') = [] /\
    walkChan (walker s') =
      walkChan (walker s) ++
      items (trim_parents (length (items (metadataParents s))) (Dir native)
               (metadataParents s)) ++
      (if IsDir (Mode st) then [cp; cp] else [cp]).
Proof.
  intros Hmo Hc native fi cp Hacc Ho Hh Hopen.
  rewrite (handle_stat_consumed s st Hc).
  rewrite (accept_stat_validated s st native _ _ Ho Hh). simpl.
  unfold metadataTransfer, metaOnly_of. rewrite Hmo. fold native.
  rewrite Hacc. simpl negb. fold fi. fold cp.
  destruct (replay_parents_accepted
              (validated s st native (log_after s st) false) cp Hopen)
    as (s' & Hr & _ & Hst & Hw).
  exists s'. repeat split; [exact Hr|exact Hst|exact Hw].
Qed.

(** An iteration after which the loop goes on either did not touch the
    validators, or took a counted entry through [accept_stat]. *)
Lemma handle_packet_continue_cases s p s1 :
  handle_packet s p = Continue s1 ->
  (counted (metadataTransfer s) (RecvOk p) = false /\
   orderValidator s1 = orderValidator s /\ hlValidator s1 = hlValidator s) \/
  (exists st,
     Type_ p = PACKET_STAT /\ Stat_ p = Some st /\
     counted (metadataTransfer s) (RecvOk p) = true /\
     consumed s st = true /\
     accept_stat s st (FromSlash goos (Path st)) (log_after s st)
       (metaOnly_of s st) = Continue s1).
Proof.
  unfold handle_packet, counted.
  destruct (Type_ p) eqn:Ht; try discriminate.
  - destruct (Stat_ p) as [st|] eqn:Hs.
    + destruct (consumed s st) eqn:C.
      * intros H. right. exists st. rewrite <- (handle_stat_consumed s st C).
        repeat split; try assumption.
        unfold consumed in C. apply andb_true_iff in C as [_ C].
        unfold metadataTransfer. destruct (metadataOnly s); [|reflexivity].
        apply andb_true_iff in C as [C _]. simpl. rewrite C. reflexivity.
      * intros H. left. pose proof (handle_stat_not_consumed s st C) as B.
        simpl in B. destruct B as (_ & _ & _ & _ & _ & _ & _ & B).
        specialize (B s1 H). subst s1. repeat split. revert H C.
        unfold handle_stat, consumed.
        destruct (String.eqb (ToSlash goos _) _); simpl; [|discriminate].
        unfold metadataTransfer.
        destruct (metadataOnly s) as [filter|]; [|discriminate].
        destruct (String.eqb (FromSlash goos (Path st)) metadataPath);
          [reflexivity|]. simpl.
        destruct (frame st) as [rec [e|]]; simpl; discriminate.
    + destruct (update (walker s) None) as [w' [e|]|why]; try discriminate.
      intros [= <-]. left. repeat split.
  - intros [= <-]. left. repeat split.
  - unfold handle_data. destruct (pipes s !! ID p); [|discriminate].
    destruct (heap s !! n) as [pw|]; [|discriminate].
    destruct (if (length (Data p) =? 0)%nat then _ else _) as [pw' [e|]];
      [discriminate|]. intros [= <-]. left. repeat split.
  - intros [= <-]. left. repeat split.
Qed.

(** Identifiers follow the counter, and the counter counts the entries
    that reach [i++]: the non-empty Stat entries that pass the path check
    and are not passed over as the reserved name.  After any stream that
    leaves a fresh receiver in its main loop, with fewer entries counted
    than a [uint32] holds, the counter equals the number of entries
    counted; the next such entry is given that number, the counter moves
    on by one whatever the mode of the entry, and the pending table gains
    the entry under that number exactly when its mode is content-eligible
    and no metadata-only filter turned it down. *)
Lemma identifiers_follow_the_counter d mo pre s1 p st :
  dispatch pre (new_receiver d mo) = (s1, Receiving) ->
  count (metadataTransfer s1) pre < uint32_max ->
  Type_ p = PACKET_STAT ->
  Stat_ p = Some st ->
  consumed s1 st = true ->
  let n := count (metadataTransfer s1) pre in
  let s2 := state_of (handle_packet s1 p) in
  loop_i s1 = n /\
  loop_i s2 = uint32 (n + 1) /\
  files s2 =
    (if negb (metaOnly_of s1 st) && fileCanRequestData (Mode st)
     then <[FromSlash goos (Path st) := n]> (files s1) else files s1) /\
  (fileCanRequestData (Mode st) = false -> files s2 = files s1).
Proof.
  intros Hpre Hlt Ht Hs Hc n s2.
  destruct (dispatch_counter pre _ s1 Hpre) as [Hmo Hi].
  assert (Hn : loop_i s1 = n).
  { pose proof (dispatch_range pre (new_receiver d mo)) as R.
    rewrite Hpre in R. simpl in R. specialize (R ltac:(unfold uint32_max; lia)).
    rewrite (uint32_small _ R) in Hi. rewrite Hi. simpl.
    unfold metadataTransfer in n |- *. subst n. rewrite Hmo. simpl.
    apply uint32_small. split; [apply count_nonneg|].
    unfold metadataTransfer in Hlt. rewrite Hmo in Hlt. exact Hlt. }
  subst s2. unfold handle_packet. rewrite Ht, Hs.
  rewrite (handle_stat_consumed s1 st Hc).
  pose proof (accept_stat_bookkeeping s1 st (FromSlash goos (Path st))
                (log_after s1 st) (metaOnly_of s1 st)) as B.
  simpl in B. destruct B as (_ & _ & _ & _ & _ & Hi2 & _ & Hf & _).
  rewrite Hi2, Hf, Hn. repeat split.
  intros ->. rewrite andb_false_r. reflexivity.
Qed.

(** C10.  With a metadata-only filter configured, a consumed Stat entry is
    handled as [accept_stat] with the filter's verdict as its only input
    from the filter.  Rejected or accepted, the entry is framed into the
    metadata log (the old log, the four-byte little-endian length, the
    serialized record), the counter moves on by one, the ordering validator
    and, unless that one rejects, the hardlink validator are run on it, and
    a rejection by a validator aborts either way with the same error.  The
    two outcomes differ at most in the pending table and in the forwarding
    (the feed and the ancestor stack that is replayed into it); a rejected
    entry leaves the pending table and the feed as they were. *)
Theorem C10_bookkeeping_independent_of_filter s filter st :
  metadataOnly s = Some filter ->
  consumed s st = true ->
  let native := FromSlash goos (Path st) in
  let log :=
    metadataBuffer s ++ PutUint32 (uint32 (SizeVT st)) ++
    fst (MarshalToSizedBufferVT st (repeat x00 (Z.to_nat (SizeVT st)))) in
  let acc := accept_stat s st native log false in
  let rej := accept_stat s st native log true in
  handle_stat s st = (if filter native st then acc else rej) /\
  metadataBuffer (state_of rej) = log /\
  loop_i (state_of rej) = uint32 (loop_i s + 1) /\
  orderValidator (state_of rej) =
    fst (HandleChange (orderValidator s) ChangeKindAdd native
           (normalize st native)) /\
  hlValidator (state_of rej) =
    match snd (HandleChange (orderValidator s) ChangeKindAdd native
                 (normalize st native)) with
    | Some _ => hlValidator s
    | None => fst (HandleChange (hlValidator s) ChangeKindAdd native
                     (normalize st native))
    end /\
  same_but_pending_and_feed (state_of rej) (state_of acc) /\
  (forall sr e, rej = Abort sr e -> exists sa, acc = Abort sa e) /\
  files (state_of rej) = files s /\
  walker (state_of rej) = walker s.
Proof.
  intros Hmo Hc native log acc rej.
  pose proof (accept_stat_bookkeeping s st native log false) as A.
  pose proof (accept_stat_bookkeeping s st native log true) as R.
  fold acc in A. fold rej in R. simpl in A, R.
  destruct A as (Ad & Am & Ap & Ah & Ac & Ai & Ab & Af & Ao & Ahl).
  destruct R as (Rd & Rm & Rp & Rh & Rc & Ri & Rb & Rf & Ro & Rhl).
  assert (Hlog : log_after s st = log).
  { unfold log_after, log, frame. rewrite Hmo.
    destruct (MarshalToSizedBufferVT st _); reflexivity. }
  split.
  { rewrite (handle_stat_consumed s st Hc), Hlog. unfold metaOnly_of.
    rewrite Hmo. fold native. destruct (filter native st); reflexivity. }
  do 4 (split; [assumption|]).
  split; [unfold same_but_pending_and_feed; repeat split; congruence|].
  split.
  { subst acc rej. unfold accept_stat. simpl. intros sr e.
    destruct (HandleChange (orderValidator s) _ _ _) as [ov [e1|]].
    { intros [= <- <-]. eexists; reflexivity. }
    destruct (HandleChange (hlValidator s) _ _ _) as [hv [e2|]].
    { intros [= <- <-]. eexists; reflexivity. }
    unfold metadataTransfer. simpl. rewrite Hmo. discriminate. }
  split; [rewrite Rf; reflexivity|].
  subst rej. unfold accept_stat. simpl.
  destruct (HandleChange (orderValidator s) _ _ _) as [ov [e1|]];
    [reflexivity|].
  destruct (HandleChange (hlValidator s) _ _ _) as [hv [e2|]];
    [reflexivity|].
  unfold metadataTransfer. simpl. rewrite Hmo. reflexivity.
Qed.

(** ** The content-pull callback *)

Lemma requested_snoc_req (ps : list Packet) id :
  map ID (List.filter
            (fun p => match Type_ p with PACKET_REQ => true | _ => false end)
            (ps ++ [mkPacket PACKET_REQ None id []])) =
  map ID (List.filter
            (fun p => match Type_ p with PACKET_REQ => true | _ => false end)
            ps) ++ [id].
Proof. rewrite List.filter_app, map_app. reflexivity. Qed.

Lemma request_absent s path wc send_err :
  files s !! path = None ->
  asyncDataFunc_request s path wc send_err =
    (s, inl (ErrInvalidFileRequestPath path)).
Proof. intros H. unfold asyncDataFunc_request. rewrite H. reflexivity. Qed.

Lemma request_present s path wc send_err id :
  files s !! path = Some id ->
  let s' := fst (asyncDataFunc_request s path wc send_err) in
  files s' = delete path (files s) /\
  conn s' = conn s ++ [mkPacket PACKET_REQ None id []] /\
  requested s' = requested s ++ [id] /\
  pipes s' = <[id := length (heap s)]> (pipes s) /\
  heap s' = heap s ++ [newWrappedWriteCloser wc] /\
  loop_i s' = loop_i s /\
  snd (asyncDataFunc_request s path wc send_err) =
    match send_err with
    | Some e => inl e
    | None => inr (id, length (heap s))
    end.
Proof.
  intros H. unfold asyncDataFunc_request. rewrite H.
  destruct send_err; simpl; repeat split;
    unfold requested; simpl; apply requested_snoc_req.
Qed.

Lemma finish_tables s id a ctx_done s' r :
  asyncDataFunc_finish s id a ctx_done = Some (s', r) ->
  files s' = files s /\ conn s' = conn s /\ loop_i s' = loop_i s.
Proof.
  unfold asyncDataFunc_finish.
  destruct (heap s !! a) as [wwc|]; [|discriminate].
  destruct (Wait ctx_done wwc) as [[e|]|]; try discriminate;
    intros [= <- <-]; repeat split.
Qed.

Lemma pending_ok_same s s' :
  files s' = files s -> conn s' = conn s -> loop_i s' = loop_i s ->
  pending_ok s -> pending_ok s'.
Proof.
  unfold pending_ok, requested. intros -> -> ->. exact id.
Qed.

Lemma pending_ok_counted s s' native :
  0 <= loop_i s ->
  loop_i s' = loop_i s + 1 -> conn s' = conn s ->
  files s' = files s \/ files s' = <[native := loop_i s]> (files s) ->
  pending_ok s -> pending_ok s'.
Proof.
  unfold pending_ok, requested. intros H0 Hi -> Hf (I1 & I2 & I3 & I4).
  rewrite Hi. destruct Hf as [-> | ->].
  - repeat split; try assumption.
    + apply (I1 _ _ H).
    + specialize (I1 _ _ H). lia.
    + apply (I3 _ H).
    + specialize (I3 _ H) as [? _]. lia.
    + apply (I3 _ H).
  - split; [|split; [|split]]; try assumption.
    + intros p id. rewrite lookup_insert. case_decide.
      * intros [= <-]. lia.
      * intros H'. specialize (I1 _ _ H'). lia.
    + intros p q id. rewrite !lookup_insert. repeat case_decide; subst.
      * reflexivity.
      * intros [= <-] H'. specialize (I1 _ _ H'). lia.
      * intros H' [= <-]. specialize (I1 _ _ H'). lia.
      * apply I2.
    + intros id Hid. destruct (I3 _ Hid) as [R N]. split; [lia|].
      intros p. rewrite lookup_insert. case_decide; [|apply N].
      intros [= <-]. lia.
Qed.

Lemma pending_ok_request s path wc send_err :
  pending_ok s -> pending_ok (fst (asyncDataFunc_request s path wc send_err)).
Proof.
  intros I. destruct (files s !! path) as [id|] eqn:E.
  - destruct (request_present s path wc send_err id E)
      as (Hf & _ & Hr & _ & _ & Hi & _).
    destruct I as (I1 & I2 & I3 & I4). unfold pending_ok.
    rewrite Hf, Hr, Hi. split; [|split; [|split]].
    + intros p id' H. apply lookup_delete_Some in H as [_ H]. eauto.
    + intros p q id' Hp Hq. apply lookup_delete_Some in Hp as [_ Hp].
      apply lookup_delete_Some in Hq as [_ Hq]. eauto.
    + intros id' Hid. apply elem_of_app in Hid as [Hid|Hid].
      * destruct (I3 _ Hid) as [R N]. split; [exact R|].
        intros p H. apply lookup_delete_Some in H as [_ H]. exact (N _ H).
      * apply list_elem_of_singleton in Hid as ->. split; [eauto|].
        intros p H. apply lookup_delete_Some in H as [Hne H].
        apply Hne. symmetry. exact (I2 _ _ _ H E).
    + apply NoDup_app. split; [exact I4|]. split; [|apply NoDup_singleton].
      intros id' Hid Hin. apply list_elem_of_singleton in Hin as ->.
      destruct (I3 _ Hid) as [_ N]. exact (N _ E).
  - rewrite (request_absent s path wc send_err E). exact I.
Qed.

(** Every step of the receiver keeps the invariant as long as the counter
    cannot wrap. *)
Lemma step_pending_ok k o s ev :
  pending_ok s -> 0 <= loop_i s <= k -> k + 1 < uint32_max ->
  let s' := snd (step (o, s) ev) in
  pending_ok s' /\ 0 <= loop_i s' <= k + 1.
Proof.
  intros I R K. destruct ev as [r|path wc send_err|id a ctx_done|e]; simpl.
  - assert (Hp : forall p, let s' := state_of (handle_packet s p) in
                           pending_ok s' /\ 0 <= loop_i s' <= k + 1).
    { intros p.
      destruct (handle_packet_tables s p) as (Hc & _ & [[Hi Hf]|[Hi Hf]]).
      - simpl. split; [exact (pending_ok_same _ _ Hf Hc Hi I)|].
        rewrite Hi. lia.
      - simpl. rewrite uint32_small in Hi by (unfold uint32_max in *; lia).
        split; [|rewrite Hi; lia].
        destruct Hf as [Hf|[native Hf]].
        + apply (pending_ok_counted s _ "" (proj1 R) Hi Hc);
            [left; exact Hf|exact I].
        + apply (pending_ok_counted s _ native (proj1 R) Hi Hc);
            [right; exact Hf|exact I]. }
    unfold recv_step. destruct o; try (simpl; split; [exact I|lia]).
    + destruct r as [p|e]; [|simpl; split; [exact I|lia]].
      specialize (Hp p). destruct (handle_packet s p); exact Hp.
    + destruct r; simpl; (split; [exact I|lia]).
  - split; [apply pending_ok_request; exact I|].
    destruct (files s !! path) as [id|] eqn:E.
    + destruct (request_present s path wc send_err id E)
        as (_ & _ & _ & _ & _ & Hi & _). rewrite Hi. lia.
    + rewrite (request_absent s path wc send_err E). simpl. lia.
  - destruct (asyncDataFunc_finish s id a ctx_done) as [[s' r]|] eqn:E; simpl;
      [|split; [exact I|lia]].
    destruct (finish_tables _ _ _ _ _ _ E) as (Hf & Hc & Hi).
    split; [exact (pending_ok_same _ _ Hf Hc Hi I)|]. rewrite Hi. lia.
  - split; [|lia]. apply (pending_ok_same s); try reflexivity. exact I.
Qed.

Lemma run_events_pending_ok evs : forall k o s,
  pending_ok s -> 0 <= loop_i s <= k ->
  k + Z.of_nat (length evs) < uint32_max ->
  pending_ok (snd (run_events evs (o, s))).
Proof.
  unfold run_events.
  induction evs as [|ev evs IH]; intros k o s I R K; [exact I|].
  change (pending_ok (snd (fold_left step evs (step (o, s) ev)))).
  simpl length in K. rewrite Nat2Z.inj_succ in K.
  destruct (step_pending_ok k o s ev I R ltac:(lia)) as [I' R'].
  destruct (step (o, s) ev) as [o' s'] eqn:E. simpl in I', R'.
  apply (IH (k + 1)); [exact I'|exact R'|lia].
Qed.

Lemma new_receiver_pending_ok d mo :
  pending_ok (new_receiver d mo : @receiver OV HV W).
Proof.
  unfold pending_ok, requested. simpl. split; [|split; [|split]].
  - intros p id H. rewrite lookup_empty in H. discriminate.
  - intros p q id H. rewrite lookup_empty in H. discriminate.
  - intros id H. inversion H.
  - apply NoDup_nil. trivial.
Qed.

(** C4.  The content-pull callback on a path without a pending identifier
    returns an error and leaves the receiver, the connection included, as
    it was.  On a pending path it takes the entry out of the pending table,
    registers the sink under the identifier and hands one Request for that
    identifier to the connection, so that calling it again for the same
    path returns the error and sends nothing.  Over any interleaving of
    the dispatch loop and the callbacks shorter than the range of the
    counter, no identifier is requested twice.  When the wait ends with the
    sink closed without error, the sink-table entry of the identifier is
    removed. *)
Theorem C4_content_pull_at_most_once :
  (forall s path wc send_err,
     files s !! path = None ->
     asyncDataFunc_request s path wc send_err =
       (s, inl (ErrInvalidFileRequestPath path))) /\
  (forall s path wc send_err id,
     files s !! path = Some id ->
     let s' := fst (asyncDataFunc_request s path wc send_err) in
     files s' = delete path (files s) /\
     conn s' = conn s ++ [mkPacket PACKET_REQ None id []] /\
     pipes s' !! id = Some (length (heap s)) /\
     heap s' !! length (heap s) = Some (newWrappedWriteCloser wc) /\
     snd (asyncDataFunc_request s path wc send_err) =
       match send_err with
       | Some e => inl e
       | None => inr (id, length (heap s))
       end /\
     forall wc2 send_err2,
       asyncDataFunc_request s' path wc2 send_err2 =
         (s', inl (ErrInvalidFileRequestPath path))) /\
  (forall d mo evs o s,
     Z.of_nat (length evs) < uint32_max ->
     run_events evs (Receiving, new_receiver d mo) = (o, s) ->
     NoDup (requested s)) /\
  (forall s id a wwc,
     heap s !! a = Some wwc -> done wwc = true -> close_err wwc = None ->
     exists s',
       asyncDataFunc_finish s id a None = Some (s', None) /\
       pipes s' = delete id (pipes s) /\ pipes s' !! id = None).
Proof.
  split; [exact request_absent|]. split; [|split].
  - intros s path wc send_err id H s'.
    destruct (request_present s path wc send_err id H)
      as (Hf & Hc & _ & Hp & Hh & _ & Hr). fold s' in Hf, Hc, Hp, Hh.
    repeat split; try assumption.
    + rewrite Hp. apply lookup_insert_eq.
    + rewrite Hh. apply list_lookup_middle. reflexivity.
    + intros wc2 send_err2. apply request_absent. rewrite Hf.
      apply lookup_delete_eq.
  - intros d mo evs o s Hlen Hrun.
    pose proof (run_events_pending_ok evs 0 Receiving (new_receiver d mo)
                  (new_receiver_pending_ok d mo)) as I.
    rewrite Hrun in I. apply I; simpl; lia.
  - intros s id a wwc Hh Hd He. unfold asyncDataFunc_finish, Wait.
    rewrite Hh, Hd, He. eexists; split; [reflexivity|]. simpl.
    split; [reflexivity|apply lookup_delete_eq].
Qed.

(** ** Data packets *)

Lemma handle_data_chunk s p a pw :
  pipes s !! ID p = Some a ->
  heap s !! a = Some pw ->
  handle_data s p =
    let r := if (length (Data p) =? 0)%nat then wrapped_Close pw
             else wrapped_Write pw (Data p) in
    let s' := set_heap s (<[a := fst r]> (heap s)) in
    match snd r with
    | Some e => Abort s' e
    | None => Continue s'
    end.
Proof.
  intros Hp Hh. unfold handle_data. rewrite Hp, Hh.
  destruct (if (length (Data p) =? 0)%nat then _ else _) as [pw' [e|]];
    reflexivity.
Qed.

(** The sink table never holds a dangling pointer, so the Data handler
    never meets a nil sink. *)
Lemma handle_packet_sinks s p :
  let s' := state_of (handle_packet s p) in
  pipes s' = pipes s /\ length (heap s') = length (heap s).
Proof.
  unfold handle_packet. destruct (Type_ p); simpl; try (split; reflexivity).
  - destruct (Stat_ p) as [st|].
    + destruct (consumed s st) eqn:C.
      * rewrite (handle_stat_consumed s st C).
        pose proof (accept_stat_bookkeeping s st (FromSlash goos (Path st))
                      (log_after s st) (metaOnly_of s st)) as B.
        cbv zeta in B. destruct B as (_ & _ & Hp & Hh & _).
        rewrite Hp, Hh. split; reflexivity.
      * revert C. unfold consumed, handle_stat.
        destruct (String.eqb (ToSlash goos _) _); simpl;
          [|split; reflexivity].
        destruct (metadataOnly s) as [filter|]; [|discriminate].
        destruct (String.eqb (FromSlash goos (Path st)) metadataPath); simpl;
          [split; reflexivity|].
        destruct (frame st) as [rec [e|]]; simpl;
          [split; reflexivity|discriminate].
    + destruct (update (walker s) None) as [w' [e|]|why]; simpl;
        split; reflexivity.
  - unfold handle_data. destruct (pipes s !! ID p); simpl;
      [|split; reflexivity].
    destruct (heap s !! n) as [pw|]; simpl; [|split; reflexivity].
    destruct (if (length (Data p) =? 0)%nat then _ else _) as [pw' [e|]];
      simpl; rewrite length_insert; split; reflexivity.
Qed.

Lemma step_pipes_allocated o s ev :
  pipes_allocated s -> pipes_allocated (snd (step (o, s) ev)).
Proof.
  unfold pipes_allocated.
  intros I. destruct ev as [r|path wc send_err|id a ctx_done|e]; simpl.
  - assert (Hp : forall p id a,
              pipes (state_of (handle_packet s p)) !! id = Some a ->
              (a < length (heap (state_of (handle_packet s p))))%nat).
    { intros p id a. destruct (handle_packet_sinks s p) as [-> ->]. apply I. }
    unfold recv_step. destruct o; try exact I.
    + destruct r as [p|e]; [|exact I].
      specialize (Hp p). destruct (handle_packet s p); exact Hp.
    + destruct r; exact I.
  - unfold asyncDataFunc_request. destruct (files s !! path) as [id|];
      [|exact I].
    intros id' a H.
    assert (Hgoal : (a < length (heap s ++ [newWrappedWriteCloser wc]))%nat).
    { rewrite length_app. simpl. destruct send_err; simpl in H;
        (rewrite lookup_insert in H; case_decide;
         [injection H as <-; lia | specialize (I _ _ H); lia]). }
    destruct send_err; exact Hgoal.
  - unfold asyncDataFunc_finish. destruct (heap s !! a) as [wwc|]; [|exact I].
    destruct (Wait ctx_done wwc) as [[e|]|]; try exact I. simpl.
    intros id' a' H. apply lookup_delete_Some in H as [_ H]. exact (I _ _ H).
  - exact I.
Qed.

Lemma run_events_pipes_allocated evs : forall o s,
  pipes_allocated s -> pipes_allocated (snd (run_events evs (o, s))).
Proof.
  unfold run_events. induction evs as [|ev evs IH]; intros o s I; [exact I|].
  change (pipes_allocated (snd (fold_left step evs (step (o, s) ev)))).
  pose proof (step_pipes_allocated o s ev I) as I'.
  destruct (step (o, s) ev) as [o' s']. apply IH. exact I'.
Qed.

Lemma handle_data_never_panics s p s' why :
  pipes_allocated s -> handle_data s p <> Panic s' why.
Proof.
  intros I. unfold handle_data.
  destruct (pipes s !! ID p) as [a|] eqn:E; [|discriminate].
  destruct (lookup_lt_is_Some_2 (heap s) a (I _ _ E)) as [pw ->].
  destruct (if (length (Data p) =? 0)%nat then _ else _) as [pw' [e|]];
    discriminate.
Qed.

(** The Data case, piece by piece.  A Data packet for an identifier
    without a sink in the table makes the loop return the error for that
    identifier, the receiver untouched.  A non-empty chunk is written to
    the sink of the identifier and an empty chunk closes it and marks it
    done; an error of the sink ends the loop with that error.  Once the content-pull callback
    waiting on a sink closed without error has returned, every further
    Data packet for the identifier is answered with the error for an
    unknown identifier. *)
Lemma handle_data_cases :
  (forall s p,
     Type_ p = PACKET_DATA -> pipes s !! ID p = None ->
     handle_packet s p = Abort s (ErrInvalidFileRequestID (ID p))) /\
  (forall s p a pw,
     Type_ p = PACKET_DATA -> pipes s !! ID p = Some a ->
     heap s !! a = Some pw -> Data p <> [] ->
     let wr := Write (inner pw) (Data p) in
     let s' :=
       set_heap s
         (<[a := mkWrapped (fst wr) (close_err pw) (done pw)]> (heap s)) in
     handle_packet s p =
       match snd wr with
       | Some e => Abort s' e
       | None => Continue s'
       end) /\
  (forall s p a pw,
     Type_ p = PACKET_DATA -> pipes s !! ID p = Some a ->
     heap s !! a = Some pw -> Data p = [] ->
     let cl := Close (inner pw) in
     let s' :=
       set_heap s (<[a := mkWrapped (fst cl) (snd cl) true]> (heap s)) in
     handle_packet s p =
       match snd cl with
       | Some e => Abort s' e
       | None => Continue s'
       end) /\
  (forall s p a pw s1,
     Type_ p = PACKET_DATA -> pipes s !! ID p = Some a ->
     heap s !! a = Some pw -> Data p = [] ->
     handle_packet s p = Continue s1 ->
     exists s2,
       asyncDataFunc_finish s1 (ID p) a None = Some (s2, None) /\
       forall q,
         Type_ q = PACKET_DATA -> ID q = ID p ->
         handle_packet s2 q = Abort s2 (ErrInvalidFileRequestID (ID p))).
Proof.
  split; [|split; [|split]].
  - intros s p Ht Hp. unfold handle_packet, handle_data. rewrite Ht, Hp.
    reflexivity.
  - intros s p a pw Ht Hp Hh Hne wr s'. unfold handle_packet. rewrite Ht.
    rewrite (handle_data_chunk s p a pw Hp Hh).
    destruct (Data p) as [|b dt] eqn:E; [contradiction|]. simpl.
    unfold wrapped_Write. subst s' wr.
    destruct (Write (inner pw) (b :: dt)) as [wc e]. reflexivity.
  - intros s p a pw Ht Hp Hh He cl s'. unfold handle_packet. rewrite Ht.
    rewrite (handle_data_chunk s p a pw Hp Hh). rewrite He. simpl.
    unfold wrapped_Close. subst s' cl.
    destruct (Close (inner pw)) as [wc e]. reflexivity.
  - intros s p a pw s1 Ht Hp Hh He H. unfold handle_packet in H.
    rewrite Ht, (handle_data_chunk s p a pw Hp Hh), He in H. simpl in H.
    unfold wrapped_Close in H. destruct (Close (inner pw)) as [wc [e|]];
      simpl in H; [discriminate|]. injection H as <-.
    unfold asyncDataFunc_finish. simpl.
    rewrite list_lookup_insert_eq by (eapply lookup_lt_Some; exact Hh).
    simpl. eexists; split; [reflexivity|].
    intros q Hq Hid. unfold handle_packet, handle_data. rewrite Hq, Hid.
    simpl. rewrite lookup_delete_eq. reflexivity.
Qed.

End ReceiverFacts.

(** ** Ordering, with the ordering validator of the spec *)

Section OrderingFacts.
Context {env : Env}.
Context {HV W : Type}.
Context {hl_handler : ChangeHandler HV}.
Context {sink : WriteCloser W}.

Implicit Types (s : @receiver Validator HV W) (st : Stat).

Lemma Validator_accepts v kind p fi :
  snd (Validator_HandleChange v kind p fi) = None ->
  increasing (last_path v) [p] = true /\
  last_path (fst (Validator_HandleChange v kind p fi)) = Some p.
Proof.
  unfold Validator_HandleChange. simpl.
  destruct (last_path v) as [q|]; [|split; reflexivity].
  destruct (String.ltb q p); [split; reflexivity|discriminate].
Qed.

Lemma Validator_rejects v kind p fi q :
  last_path v = Some q -> String.ltb q p = false ->
  exists e, snd (Validator_HandleChange v kind p fi) = Some e.
Proof.
  unfold Validator_HandleChange. intros -> ->. eexists; reflexivity.
Qed.

Lemma counted_paths_cons mt (p : Packet) rs :
  counted_paths mt (RecvOk p :: rs) =
    match Type_ p with
    | PACKET_STAT =>
        match Stat_ p with
        | Some st =>
            if counted mt (RecvOk p) then [FromSlash goos (Path st)] else []
        | None => []
        end
    | _ => []
    end ++ counted_paths mt rs.
Proof. destruct p as [[] [st|] i dt]; reflexivity. Qed.

Lemma accept_stat_continue_order s st native log metaOnly s1 :
  accept_stat s st native log metaOnly = Continue s1 ->
  increasing (last_path (orderValidator s)) [native] = true /\
  last_path (orderValidator s1) = Some native.
Proof.
  intros H.
  pose proof (accept_stat_bookkeeping s st native log metaOnly) as B.
  rewrite H in B. simpl in B.
  destruct B as (_ & _ & _ & _ & _ & _ & _ & _ & Ho & _). rewrite Ho.
  apply Validator_accepts.
  destruct (snd (HandleChange (orderValidator s) ChangeKindAdd native
                   (normalize st native))) as [e|] eqn:E; [|exact E].
  destruct (accept_stat_order_rejects s st native log metaOnly e E)
    as (s' & Hs' & _). congruence.
Qed.

Lemma dispatch_increasing rs : forall s s',
  dispatch rs s = (s', Receiving) ->
  increasing (last_path (orderValidator s))
    (counted_paths (metadataTransfer s) rs) = true.
Proof.
  induction rs as [|[p|e] rs IH]; intros s s' H; simpl in H;
    [reflexivity| |discriminate].
  destruct (handle_packet s p) as [s1|s1 e|s1|s1 why] eqn:E;
    [|discriminate| |discriminate].
  2:{ exfalso. injection H as _ H. exact (drain_not_receiving rs H). }
  specialize (IH s1 s' H).
  destruct (handle_packet_continue_counter s p s1 E) as [Hmo _].
  assert (Hmt : metadataTransfer s1 = metadataTransfer s)
    by (unfold metadataTransfer; rewrite Hmo; reflexivity).
  rewrite Hmt in IH.
  destruct (handle_packet_continue_cases s p s1 E)
    as [(Hc & Ho & _)|(st & Ht & Hs & Hc & _ & Hacc)];
    rewrite counted_paths_cons.
  - replace (match Type_ p with PACKET_STAT => _ | _ => [] end)
      with (@nil string)
      by (destruct (Type_ p), (Stat_ p); try rewrite Hc; reflexivity).
    simpl. rewrite <- Ho. exact IH.
  - rewrite Ht, Hs, Hc.
    destruct (accept_stat_continue_order _ _ _ _ _ _ Hacc) as [Hinc Hlast].
    simpl in Hinc |- *. rewrite andb_true_r in Hinc. rewrite Hinc.
    rewrite <- Hlast. exact IH.
Qed.

(** C2.  A consumed Stat entry is shown to the ordering validator and then
    to the hardlink validator before anything is forwarded: the ordering
    validator has always observed the entry, and the feed changes only
    when both validators accepted it; when the ordering validator rejects,
    the loop returns its error, the hardlink validator has not seen the
    entry and the feed is as before; when the hardlink validator rejects,
    the loop returns its error and the feed is as before.  With the
    ordering validator of the spec, an entry whose path is not strictly
    above the last path seen is therefore rejected (every entry, that
    is, which is not passed over as the reserved name of the metadata
    log), and the entries of any stream that leaves the loop receiving
    were in strictly increasing order of their paths. *)
Theorem C2_validators_gate_forwarding :
  (forall s st,
     consumed s st = true ->
     let native := FromSlash goos (Path st) in
     let fi := normalize st native in
     let s' := state_of (handle_stat s st) in
     orderValidator s' =
       fst (HandleChange (orderValidator s) ChangeKindAdd native fi) /\
     (walker s' <> walker s ->
      snd (HandleChange (orderValidator s) ChangeKindAdd native fi) = None /\
      snd (HandleChange (hlValidator s) ChangeKindAdd native fi) = None /\
      hlValidator s' =
        fst (HandleChange (hlValidator s) ChangeKindAdd native fi))) /\
  (forall s st e,
     consumed s st = true ->
     let native := FromSlash goos (Path st) in
     snd (HandleChange (orderValidator s) ChangeKindAdd native
            (normalize st native)) = Some e ->
     exists s',
       handle_stat s st = Abort s' e /\
       hlValidator s' = hlValidator s /\ walker s' = walker s) /\
  (forall s st e,
     consumed s st = true ->
     let native := FromSlash goos (Path st) in
     snd (HandleChange (orderValidator s) ChangeKindAdd native
            (normalize st native)) = None ->
     snd (HandleChange (hlValidator s) ChangeKindAdd native
            (normalize st native)) = Some e ->
     exists s', handle_stat s st = Abort s' e /\ walker s' = walker s) /\
  (forall s st q,
     metadataTransfer s && String.eqb (FromSlash goos (Path st)) metadataPath
       = false ->
     last_path (orderValidator s) = Some q ->
     String.ltb q (FromSlash goos (Path st)) = false ->
     exists s' e, handle_stat s st = Abort s' e /\ walker s' = walker s) /\
  (forall rs s s',
     dispatch rs s = (s', Receiving) ->
     increasing (last_path (orderValidator s))
       (counted_paths (metadataTransfer s) rs) = true).
Proof.
  split; [|split; [|split; [|split]]].
  - intros s st Hc native fi s'. subst s' fi.
    rewrite (handle_stat_consumed s st Hc). fold native.
    pose proof (accept_stat_bookkeeping s st native (log_after s st)
                  (metaOnly_of s st)) as B.
    cbv zeta in B. destruct B as (_ & _ & _ & _ & _ & _ & _ & _ & Ho & Hh).
    split; [exact Ho|]. intros Hw.
    destruct (snd (HandleChange (orderValidator s) ChangeKindAdd native
                     (normalize st native))) as [e|] eqn:E1.
    { destruct (accept_stat_order_rejects s st native (log_after s st)
                  (metaOnly_of s st) e E1) as (s1 & H1 & _ & H3 & _).
      rewrite H1 in Hw. contradiction. }
    destruct (snd (HandleChange (hlValidator s) ChangeKindAdd native
                     (normalize st native))) as [e|] eqn:E2.
    { destruct (accept_stat_hardlink_rejects s st native (log_after s st)
                  (metaOnly_of s st) e E1 E2) as (s1 & H1 & H3 & _).
      rewrite H1 in Hw. contradiction. }
    repeat split. exact Hh.
  - intros s st e Hc native He. rewrite (handle_stat_consumed s st Hc).
    destruct (accept_stat_order_rejects s st native (log_after s st)
                (metaOnly_of s st) e He) as (s' & H1 & H2 & H3 & _).
    exists s'. repeat split; assumption.
  - intros s st e Hc native Ho He. rewrite (handle_stat_consumed s st Hc).
    destruct (accept_stat_hardlink_rejects s st native (log_after s st)
                (metaOnly_of s st) e Ho He) as (s' & H1 & H2 & _).
    exists s'. split; assumption.
  - intros s st q Hres Hq Hlt.
    destruct (consumed s st) eqn:Hc;
      [|exact (handle_stat_stopped s st Hc Hres)].
    rewrite (handle_stat_consumed s st Hc).
    destruct (Validator_rejects (orderValidator s) ChangeKindAdd
                (FromSlash goos (Path st))
                (normalize st (FromSlash goos (Path st))) q Hq Hlt) as [e He].
    change (snd (HandleChange (orderValidator s) ChangeKindAdd
                   (FromSlash goos (Path st))
                   (normalize st (FromSlash goos (Path st)))) = Some e) in He.
    destruct (accept_stat_order_rejects s st _ (log_after s st)
                (metaOnly_of s st) e He) as (s' & H1 & _ & H3 & _).
    exists s', e. split; assumption.
  - exact dispatch_increasing.
Qed.

End OrderingFacts.


(** ** The receiver at work *)

(** The scenario of the spec: the directories [dir] and [dir/sub] are
    turned down by the filter and held back; when [dir/sub/match] is
    accepted they are replayed in order ahead of it. *)
Example ancestor_replay_scenario :
  forwarded (fst (dispatch_on unix
    (stats [dir_entry "dir"; dir_entry "dir/sub"; file_entry "dir/sub/match"])
    (example_receiver (accept_only "dir/sub/match")))) =
  ["dir"; "dir/sub"; "dir/sub/match"].
Proof. vm_compute. reflexivity. Qed.

(** A whole transfer as the spec sketches it: the tree [a], [a/f] with
    the three bytes [xyz]; the disk writer asks for [a/f], the receiver
    requests identifier 1, the bytes and the empty chunk arrive, the
    callback returns, and after Finish and end-of-stream the loop returns
    without error. *)
Example transfer_scenario :
  let evs :=
    [EvRecv (RecvOk (stat_packet (dir_entry "a")));
     EvRecv (RecvOk (stat_packet (file_entry "a/f")));
     EvRecv (RecvOk (mkPacket PACKET_STAT None 0 []));
     EvRequest "a/f" (mkBufferSink [] 0) None;
     EvRecv (RecvOk (data_packet 1 [x78; x79; x7a]));
     EvRecv (RecvOk (data_packet 1 []));
     EvFinish 1 0%nat None;
     EvRecv (RecvOk (plain_packet PACKET_FIN));
     EvRecv (RecvErr io_EOF)] in
  let sys := run_events_on unix evs (Receiving, example_receiver None) in
  fst sys = Returned None /\
  forwarded (snd sys) = ["a"; "a/f"] /\
  walkChan_closed (walker (snd sys)) = true /\
  requested (snd sys) = [1] /\
  heap (snd sys) = [mkWrapped (mkBufferSink [x78; x79; x7a] 1) None true] /\
  pipes (snd sys) !! 1 = None /\
  files (snd sys) !! "a/f" = None.
Proof. vm_compute. repeat split; reflexivity. Qed.

(** C1, at the input on which the code departs from it.  A directory that
    the metadata-only filter accepts has been pushed on the ancestor stack
    before the replay, so it is forwarded by the replay and then once more
    by the final [w.update(cp)]: it reaches the feed twice. *)
Theorem C1_accepted_directory_forwarded_twice :
  forwarded (fst (dispatch_on unix (stats [dir_entry "dir"])
                    (example_receiver accept_all))) = ["dir"; "dir"].
Proof. vm_compute. reflexivity. Qed.

(** An Error packet carrying [boom] surfaces as [error from sender: boom]
    and not as the carried text. *)
Lemma C7_error_text_not_verbatim :
  exists e,
    snd (dispatch_on unix
           [RecvOk (mkPacket PACKET_ERR None 0 (list_byte_of_string "boom"))]
           (example_receiver None)) = Returned (Some e) /\
    Error e = "error from sender: boom" /\
    Error e <> "boom".
Proof.
  eexists. split; [reflexivity|]. split; [reflexivity|]. discriminate.
Qed.

(** C3, at the input on which the code departs from it.  With a
    metadata-only filter the Stat for the reserved name is passed over
    before the counter moves, so every entry after it is numbered one
    below its index in the Stat sequence: in the stream [.fsutil-metadata],
    [a] the entry [a] has index 1, and a receiver without filter numbers
    it 1, but a receiver with a filter numbers it 0 and requests its
    content under 0, the index of [.fsutil-metadata]. *)
Theorem C3_reserved_name_shifts_identifiers :
  let rs := stats [file_entry ".fsutil-metadata"; file_entry "a"] in
  let plain := dispatch_on unix rs (example_receiver None) in
  let filtered := dispatch_on unix rs (example_receiver accept_all) in
  let asked :=
    fst (asyncDataFunc_request (fst filtered) "a" (mkBufferSink [] 0) None) in
  (snd plain = Receiving /\
   files (fst plain) !! ".fsutil-metadata" = Some 0 /\
   files (fst plain) !! "a" = Some 1 /\
   loop_i (fst plain) = 2) /\
  (snd filtered = Receiving /\
   files (fst filtered) !! ".fsutil-metadata" = None /\
   files (fst filtered) !! "a" = Some 0 /\
   loop_i (fst filtered) = 1) /\
  conn asked = [mkPacket PACKET_REQ None 0 []].
Proof. vm_compute. repeat split; reflexivity. Qed.

(** C5, at the input on which the code departs from it.  The Data case
    never takes a sink out of the table; only the content-pull callback
    does, in its own goroutine, once its wait has returned.  So what
    happens to a Data packet that follows the empty chunk depends on
    whether the callback has got that far: before, the loop goes on
    receiving and the bytes reach the closed sink; after, the same packet
    ends the loop with the error for an unknown identifier. *)
Theorem C5_data_after_close_depends_on_callback :
  let closed :=
    [EvRecv (RecvOk (stat_packet (file_entry "f")));
     EvRequest "f" (mkBufferSink [] 0) None;
     EvRecv (RecvOk (data_packet 0 []))] in
  let late := EvRecv (RecvOk (data_packet 0 [x61])) in
  let returned := EvFinish 0 0%nat None in
  let racing :=
    run_events_on unix (closed ++ [late; returned])
      (Receiving, example_receiver None) in
  let finished :=
    run_events_on unix (closed ++ [returned; late])
      (Receiving, example_receiver None) in
  (fst racing = Receiving /\
   heap (snd racing) = [mkWrapped (mkBufferSink [x61] 1) None true]) /\
  (fst finished = Returned (Some (ErrInvalidFileRequestID 0)) /\
   heap (snd finished) = [mkWrapped (mkBufferSink [] 1) None true]) /\
  Error (ErrInvalidFileRequestID 0) = "invalid file request 0".
Proof. vm_compute. repeat split; reflexivity. Qed.

(** ** The statements at concrete inputs *)

(** On Windows the wire path [foo/bar\baz] does not survive the round
    trip. *)
Lemma C6_unrepresentable_path_witness :
  ToSlash windows (FromSlash windows "foo/bar\baz") <> "foo/bar\baz" /\
  dispatch_on windows [RecvOk (stat_packet (file_entry "foo/bar\baz"))]
    (example_receiver None) =
  (example_receiver None,
   Returned (Some (PathError "unrepresentable path" "foo/bar\baz"))).
Proof.
  assert (H : ToSlash windows (FromSlash windows "foo/bar\baz")
              <> "foo/bar\baz") by (vm_compute; discriminate).
  split; [exact H|].
  exact (proj1 (C6_unrepresentable_path_aborts (env := example_env windows)
                  (example_receiver None)
                  (stat_packet (file_entry "foo/bar\baz"))
                  (file_entry "foo/bar\baz") [] eq_refl eq_refl H)).
Defined.

Lemma C7_error_packet_witness :
  dispatch_on unix
    [RecvOk (mkPacket PACKET_ERR None 0 (list_byte_of_string "boom"))]
    (example_receiver None) =
  (example_receiver None,
   Returned (Some (ErrFromSender (list_byte_of_string "boom")))) /\
  Error (ErrFromSender (list_byte_of_string "boom")) =
    "error from sender: " +:+
    string_of_list_byte (list_byte_of_string "boom").
Proof.
  exact (C7_error_packet_aborts (env := example_env unix)
           (example_receiver None)
           (mkPacket PACKET_ERR None 0 (list_byte_of_string "boom")) []
           eq_refl).
Defined.

Lemma C8_finish_drains_witness :
  let s :=
    fst (dispatch_on unix (stats [file_entry "a"]) (example_receiver None)) in
  dispatch_on unix (stats [file_entry "a"]) (example_receiver None) =
    (s, Receiving) /\
  dispatch_on unix
    (stats [file_entry "a"] ++
     RecvOk (plain_packet PACKET_FIN) :: map RecvOk [data_packet 7 [x61]])
    (example_receiver None) = (s, Draining) /\
  dispatch_on unix
    (stats [file_entry "a"] ++
     RecvOk (plain_packet PACKET_FIN) ::
     map RecvOk [data_packet 7 [x61]] ++ RecvErr io_EOF :: [])
    (example_receiver None) = (s, Returned None).
Proof.
  intros s.
  assert (H : dispatch_on unix (stats [file_entry "a"]) (example_receiver None)
              = (s, Receiving)) by (vm_compute; reflexivity).
  split; [exact H|].
  exact (C8_finish_drains (env := example_env unix) (stats [file_entry "a"])
           (example_receiver None) s (plain_packet PACKET_FIN)
           [data_packet 7 [x61]] io_EOF [] H eq_refl).
Defined.

Lemma C9_reserved_metadata_name_witness :
  let s := example_receiver (accept_only "x") in
  metadataOnly s = accept_only "x" /\
  FromSlash unix (Path (file_entry ".fsutil-metadata")) = metadataPath /\
  handle_packet (env := example_env unix) s
    (stat_packet (file_entry ".fsutil-metadata")) = Continue s /\
  run_epilogue (env := example_env unix) s None (mkFsResults None None None) =
    ([os_Remove "/dest/.fsutil-metadata";
      os_OpenFile "/dest/.fsutil-metadata" [O_WRONLY; O_CREATE; O_TRUNC] 420;
      buffer_WriteTo [];
      file_Close], None).
Proof.
  intros s.
  pose proof (C9_reserved_metadata_name (env := example_env unix) s
                (fun p _ => String.eqb p "x") eq_refl) as [Hskip Hrun].
  split; [reflexivity|]. split; [reflexivity|]. split.
  - exact (Hskip (stat_packet (file_entry ".fsutil-metadata"))
             (file_entry ".fsutil-metadata") eq_refl eq_refl eq_refl).
  - exact (Hrun (mkFsResults None None None) eq_refl eq_refl).
Defined.

Lemma identifiers_follow_the_counter_witness :
  let pre := stats [dir_entry "a"; file_entry "a/f"] in
  let s1 := fst (dispatch_on unix pre (example_receiver None)) in
  let s2 :=
    state_of (handle_packet (env := example_env unix) s1
                (stat_packet (file_entry "b"))) in
  dispatch_on unix pre (example_receiver None) = (s1, Receiving) /\
  count (env := example_env unix) (metadataTransfer s1) pre = 2 /\
  loop_i s1 = 2 /\ loop_i s2 = 3 /\
  files s2 = <["b" := 2]> (files s1).
Proof.
  intros pre s1 s2.
  assert (Hpre : dispatch_on unix pre (example_receiver None) = (s1, Receiving))
    by (vm_compute; reflexivity).
  assert (Hcount :
            count (env := example_env unix) (metadataTransfer s1) pre = 2)
    by (vm_compute; reflexivity).
  destruct (identifiers_follow_the_counter (env := example_env unix) "/dest"
              None
              pre s1 (stat_packet (file_entry "b")) (file_entry "b") Hpre
              ltac:(rewrite Hcount; vm_compute; reflexivity)
              eq_refl eq_refl ltac:(vm_compute; reflexivity))
    as (H1 & H2 & H3 & _).
  rewrite Hcount in H1, H2, H3.
  repeat split; assumption.
Defined.

Lemma C10_bookkeeping_witness :
  let s := example_receiver (accept_only "x") in
  let st := file_entry "y" in
  let log := [x01; x00; x00; x00; x79] in
  let acc := accept_stat (env := example_env unix) s st "y" log false in
  let rej := accept_stat (env := example_env unix) s st "y" log true in
  consumed (env := example_env unix) s st = true /\
  handle_stat (env := example_env unix) s st = rej /\
  metadataBuffer (state_of rej) = log /\
  loop_i (state_of rej) = 1 /\
  same_but_pending_and_feed (state_of rej) (state_of acc) /\
  files (state_of rej) = files s /\
  walker (state_of rej) = walker s.
Proof.
  intros s st log acc rej.
  assert (Hc : consumed (env := example_env unix) s st = true)
    by (vm_compute; reflexivity).
  destruct (C10_bookkeeping_independent_of_filter (env := example_env unix)
              s (fun p _ => String.eqb p "x") st eq_refl Hc)
    as (H1 & H2 & H3 & _ & _ & H6 & _ & H8 & H9).
  repeat split; assumption.
Defined.

(** After [b], the entry [a] is out of order and a second [b] is a
    duplicate; [c] as a hardlink to a path never seen passes the ordering
    validator and is turned down by the hardlink validator. *)
Lemma C2_validators_gate_witness :
  let s0 := example_receiver None in
  let s :=
    fst (dispatch_on unix (stats [file_entry "b"]) (example_receiver None)) in
  let b := normalize (env := example_env unix) (file_entry "b") "b" in
  let lnk := mkStat "c" 420 0 0 0 0 "missing" 0 0 [] in
  (consumed (env := example_env unix) s (file_entry "a") = true /\
   last_path (orderValidator s) = Some "b" /\
   String.ltb "b" "a" = false /\ String.ltb "b" "b" = false) /\
  (walker (state_of (handle_stat (env := example_env unix) s0 (file_entry "b")))
     <> walker s0 /\
   snd (HandleChange (orderValidator s0) ChangeKindAdd "b" b) = None /\
   snd (HandleChange (hlValidator s0) ChangeKindAdd "b" b) = None) /\
  (exists s' e,
     handle_stat (env := example_env unix) s (file_entry "a") = Abort s' e /\
     walker s' = walker s) /\
  (exists s' e,
     handle_stat (env := example_env unix) s (file_entry "b") = Abort s' e /\
     walker s' = walker s) /\
  (exists s',
     handle_stat (env := example_env unix) s (file_entry "a") =
       Abort s' (ErrOther "changes out of order: a") /\
     hlValidator s' = hlValidator s /\ walker s' = walker s) /\
  (exists s',
     handle_stat (env := example_env unix) s lnk =
       Abort s' (ErrOther "invalid hardlink to missing") /\
     walker s' = walker s) /\
  increasing (last_path (orderValidator (example_receiver None)))
    (counted_paths (env := example_env unix)
       (metadataTransfer (example_receiver None)) (stats [file_entry "b"]))
  = true.
Proof.
  intros s0 s b lnk.
  destruct (C2_validators_gate_forwarding (env := example_env unix)
              (HV := Hardlinks) (W := bufferSink))
    as (Hboth & Horder & Hlink & Hlex & Hseq).
  assert (Ha : consumed (env := example_env unix) s (file_entry "a") = true)
    by (vm_compute; reflexivity).
  assert (Hc : consumed (env := example_env unix) s lnk = true)
    by (vm_compute; reflexivity).
  assert (Hlast : last_path (orderValidator s) = Some "b")
    by (vm_compute; reflexivity).
  assert (Hfed : walker (state_of (handle_stat (env := example_env unix) s0
                                     (file_entry "b"))) <> walker s0)
    by (vm_compute; discriminate).
  split; [repeat split; first [assumption | vm_compute; reflexivity]|].
  split.
  { destruct (Hboth s0 (file_entry "b") ltac:(vm_compute; reflexivity))
      as [_ Hv]. destruct (Hv Hfed) as (H1 & H2 & _).
    split; [exact Hfed|]. split; [exact H1|exact H2]. }
  split; [exact (Hlex s (file_entry "a") "b" eq_refl Hlast eq_refl)|].
  split; [exact (Hlex s (file_entry "b") "b" eq_refl Hlast eq_refl)|].
  split; [exact (Horder s (file_entry "a") _ Ha
                   ltac:(vm_compute; reflexivity))|].
  split; [exact (Hlink s lnk _ Hc ltac:(vm_compute; reflexivity)
                   ltac:(vm_compute; reflexivity))|].
  exact (Hseq (stats [file_entry "b"]) (example_receiver None) s
           ltac:(vm_compute; reflexivity)).
Defined.

Lemma C4_content_pull_witness :
  let s :=
    fst (dispatch_on unix (stats [file_entry "f"]) (example_receiver None)) in
  let wc := mkBufferSink [] 0 in
  let s' := fst (asyncDataFunc_request s "f" wc None) in
  let evs :=
    [EvRecv (RecvOk (stat_packet (file_entry "f")));
     EvRequest "f" wc None; EvRequest "f" wc None;
     EvRecv (RecvOk (data_packet 0 [])); EvFinish 0 0%nat None] in
  (files s !! "g" = None /\ files s !! "f" = Some 0) /\
  asyncDataFunc_request s "g" wc None =
    (s, inl (ErrInvalidFileRequestPath "g")) /\
  (conn s' = conn s ++ [mkPacket PACKET_REQ None 0 []] /\
   asyncDataFunc_request s' "f" wc None =
     (s', inl (ErrInvalidFileRequestPath "f"))) /\
  NoDup (requested (snd (run_events_on unix evs
                           (Receiving, example_receiver None)))) /\
  (exists s2,
     asyncDataFunc_finish
       (set_heap s' [mkWrapped wc None true]) 0 0%nat None = Some (s2, None) /\
     pipes s2 !! 0 = None).
Proof.
  intros s wc s' evs.
  destruct (C4_content_pull_at_most_once (env := example_env unix)
              (OV := Validator) (HV := Hardlinks) (W := bufferSink))
    as (Habsent & Hpresent & Honce & Hfinish).
  assert (Hg : files s !! "g" = None) by (vm_compute; reflexivity).
  assert (Hf : files s !! "f" = Some 0) by (vm_compute; reflexivity).
  split; [split; assumption|].
  split; [exact (Habsent s "g" wc None Hg)|].
  destruct (Hpresent s "f" wc None 0 Hf) as (_ & Hconn & _ & _ & _ & Hagain).
  split; [split; [exact Hconn|exact (Hagain wc None)]|].
  split.
  - exact (Honce "/dest" None evs _ _ ltac:(vm_compute; reflexivity)
             (surjective_pairing
                (run_events_on unix evs (Receiving, example_receiver None)))).
  - destruct (Hfinish (set_heap s' [mkWrapped wc None true]) 0 0%nat
                (mkWrapped wc None true) eq_refl eq_refl eq_refl)
      as (s2 & H1 & _ & H3).
    exists s2. split; assumption.
Defined.

Lemma handle_data_cases_witness :
  let s0 :=
    fst (dispatch_on unix (stats [file_entry "f"]) (example_receiver None)) in
  let s := fst (asyncDataFunc_request s0 "f" (mkBufferSink [] 0) None) in
  let pw := newWrappedWriteCloser (mkBufferSink [] 0) in
  (pipes s !! 5 = None /\ pipes s !! 0 = Some 0%nat /\
   heap s !! 0%nat = Some pw) /\
  handle_packet (env := example_env unix) s (data_packet 5 [x61]) =
    Abort s (ErrInvalidFileRequestID 5) /\
  handle_packet (env := example_env unix) s (data_packet 0 [x61]) =
    Continue (set_heap s
      (<[0%nat := mkWrapped (mkBufferSink [x61] 0) None false]> (heap s))) /\
  handle_packet (env := example_env unix) s (data_packet 0 []) =
    Continue (set_heap s
      (<[0%nat := mkWrapped (mkBufferSink [] 1) None true]> (heap s))) /\
  (exists s2,
     asyncDataFunc_finish
       (set_heap s
          (<[0%nat := mkWrapped (mkBufferSink [] 1) None true]> (heap s)))
       0 0%nat None = Some (s2, None) /\
     handle_packet (env := example_env unix) s2 (data_packet 0 [x61]) =
       Abort s2 (ErrInvalidFileRequestID 0)).
Proof.
  intros s0 s pw.
  destruct (handle_data_cases (env := example_env unix)
              (OV := Validator) (HV := Hardlinks) (W := bufferSink))
    as (Hnone & Hwrite & Hclose & Hterminal).
  assert (H5 : pipes s !! 5 = None) by (vm_compute; reflexivity).
  assert (H0 : pipes s !! 0 = Some 0%nat) by (vm_compute; reflexivity).
  assert (Hh : heap s !! 0%nat = Some pw) by (vm_compute; reflexivity).
  split; [repeat split; assumption|].
  split; [exact (Hnone s (data_packet 5 [x61]) eq_refl H5)|].
  split; [exact (Hwrite s (data_packet 0 [x61]) 0%nat pw eq_refl H0 Hh
                   ltac:(discriminate))|].
  pose proof (Hclose s (data_packet 0 []) 0%nat pw eq_refl H0 Hh eq_refl)
    as Hcl.
  split; [exact Hcl|].
  destruct (Hterminal s (data_packet 0 []) 0%nat pw _ eq_refl H0 Hh eq_refl Hcl)
    as (s2 & Hfin & Hafter).
  exists s2. split; [exact Hfin|].
  exact (Hafter (data_packet 0 [x61]) eq_refl eq_refl).
Defined.

(** * Further properties of receive.go *)

(** ** The stack *)

Section StackFacts.
Context {T : Type}.

Implicit Types (s : stack T) (v : T).

Lemma pop_push s v : pop (push s v) = (Some v, s).
Proof.
  destruct s as [its]. unfold pop, push. simpl.
  rewrite last_snoc, removelast_last. reflexivity.
Qed.

Lemma pushes_snoc s vs v : pushes s (vs ++ [v]) = push (pushes s vs) v.
Proof. unfold pushes. rewrite fold_left_app. reflexivity. Qed.

(** X1.  The stack is last-in first-out: after pushing the values [vs] in
    order, as many pops hand them back in reverse order and leave the
    stack exactly as it was before the pushes. *)
Theorem pops_pushes s vs : pops (length vs) (pushes s vs) = (rev vs, s).
Proof.
  induction vs as [|v vs IH] using rev_ind; [reflexivity|].
  rewrite pushes_snoc, length_app, Nat.add_1_r, rev_unit. simpl.
  rewrite pop_push, IH. reflexivity.
Qed.

(** X2.  [peek] shows what [pop] would hand out; [pop] takes exactly the
    top element off, and reports nothing precisely on the empty stack,
    which it leaves alone; popping as often as there are elements, or
    more often, hands out every element, top first, and ends on the empty
    stack. *)
Theorem pop_takes_the_top s :
  peek s = fst (pop s) /\
  items s =
    items (snd (pop s)) ++
    match fst (pop s) with Some v => [v] | None => [] end /\
  (fst (pop s) = None <-> items s = []) /\
  (forall k, pops (length (items s) + k) s = (rev (items s), newStack)).
Proof.
  destruct s as [its]. unfold peek, pop. simpl.
  split; [destruct (last its); reflexivity|].
  split; [|split].
  - destruct its as [|x l] using rev_ind; [reflexivity|].
    rewrite last_snoc. simpl. rewrite removelast_last. reflexivity.
  - destruct its as [|x l] using rev_ind; [split; reflexivity|].
    rewrite last_snoc. simpl. split; [discriminate|].
    intros E. destruct l; discriminate.
  - induction its as [|x l IH] using rev_ind; intros k.
    + destruct k; reflexivity.
    + rewrite length_app, Nat.add_1_r. simpl.
      unfold pop. simpl. rewrite last_snoc, removelast_last.
      rewrite (IH k), rev_unit. reflexivity.
Qed.

End StackFacts.

(** ** The feed over the life of the receiver *)

Section FeedFacts.
Context {env : Env}.
Context {OV HV W : Type}.
Context {order_handler : ChangeHandler OV}.
Context {hl_handler : ChangeHandler HV}.
Context {sink : WriteCloser W}.

Implicit Types (s : @receiver OV HV W) (st : Stat) (p : Packet).
Implicit Types (w : dynamicWalker) (cp : currentPath).

Lemma feed_grows_refl w : feed_grows w w.
Proof.
  split; [exists []; rewrite app_nil_r; split; [reflexivity|]; trivial|].
  split; trivial.
Qed.

Lemma feed_grows_trans w1 w2 w3 :
  feed_grows w1 w2 -> feed_grows w2 w3 -> feed_grows w1 w3.
Proof.
  intros [(n1 & E1 & F1) [C1 D1]] [(n2 & E2 & F2) [C2 D2]].
  split; [|split; auto].
  exists (n1 ++ n2). rewrite E2, E1, app_assoc. split; [reflexivity|].
  intros H. rewrite (F1 H), (F2 (C1 H)). reflexivity.
Qed.

(** What one [update] does to the walker when it returns. *)
Lemma update_returns w (p : option currentPath) w' e :
  update w p = Updated w' e ->
  (closeCh_closed w = true /\ w' = w /\ e = Wrap (err w) "walker is closed") \/
  (closeCh_closed w = false /\ walkChan_closed w = false /\ e = None /\
   w' = mkWalker (walkChan w ++ match p with Some cp => [cp] | None => [] end)
          (match p with Some _ => false | None => true end) (err w) false).
Proof.
  unfold update. destruct (closeCh_closed w) eqn:C.
  - intros [= <- <-]. left. repeat split.
  - destruct p as [cp|]; destruct (walkChan_closed w) eqn:D; try discriminate;
      intros [= <- <-]; right; rewrite ?app_nil_r; repeat split.
Qed.

Lemma update_grows w (p : option currentPath) w' e :
  update w p = Updated w' e -> feed_grows w w'.
Proof.
  intros H. destruct (update_returns w p w' e H)
    as [(C & -> & _)|(C & D & _ & ->)]; [apply feed_grows_refl|].
  split; [eexists; split; [reflexivity|congruence]|].
  split; simpl; congruence.
Qed.

Lemma replay_grows its : forall w w' e,
  replay its w = Updated w' e -> feed_grows w w'.
Proof.
  induction its as [|cp rest IH]; intros w w' e H; simpl in H.
  - injection H as <- <-. apply feed_grows_refl.
  - destruct (update w (Some cp)) as [w1 [e1|]|why] eqn:U; try discriminate.
    + injection H as <- <-. exact (update_grows _ _ _ _ U).
    + exact (feed_grows_trans _ _ _ (update_grows _ _ _ _ U) (IH _ _ _ H)).
Qed.

Lemma forward_grows s cp :
  feed_grows (walker s) (walker (state_of (forward s cp))).
Proof.
  unfold forward. destruct (update (walker s) (Some cp)) as [w' [e|]|why] eqn:U;
    simpl; first [exact (update_grows _ _ _ _ U) | apply feed_grows_refl].
Qed.

Lemma replay_parents_grows s cp metaOnly :
  feed_grows (walker s) (walker (state_of (replay_parents s cp metaOnly))).
Proof.
  unfold replay_parents. destruct metaOnly; [apply feed_grows_refl|].
  match goal with
  | |- context [replay ?l ?w] => destruct (replay l w) as [w' [e|]|why] eqn:R
  end; simpl.
  - exact (replay_grows _ _ _ _ R).
  - eapply feed_grows_trans; [exact (replay_grows _ _ _ _ R)|].
    match goal with
    | |- context [forward ?x cp] => exact (forward_grows x cp)
    end.
  - apply feed_grows_refl.
Qed.

Lemma accept_stat_grows s st native log metaOnly :
  feed_grows (walker s)
    (walker (state_of (accept_stat s st native log metaOnly))).
Proof.
  unfold accept_stat.
  destruct (HandleChange (orderValidator s) _ _ _) as [ov [e1|]];
    [apply feed_grows_refl|].
  destruct (HandleChange (hlValidator s) _ _ _) as [hv [e2|]];
    [apply feed_grows_refl|].
  destruct (metadataTransfer s).
  - match goal with
    | |- context [replay_parents ?x ?c ?m] =>
        exact (replay_parents_grows x c m)
    end.
  - match goal with
    | |- context [forward ?x ?c] => exact (forward_grows x c)
    end.
Qed.

Lemma handle_packet_grows s p :
  feed_grows (walker s) (walker (state_of (handle_packet s p))).
Proof.
  unfold handle_packet. destruct (Type_ p); try apply feed_grows_refl.
  - destruct (Stat_ p) as [st|].
    + unfold handle_stat.
      destruct (negb _); [apply feed_grows_refl|].
      destruct (metadataOnly s) as [filter|]; [|apply accept_stat_grows].
      destruct (String.eqb _ metadataPath); [apply feed_grows_refl|].
      destruct (frame st) as [rec [e|]]; [apply feed_grows_refl|].
      apply accept_stat_grows.
    + destruct (update (walker s) None) as [w' [e|]|why] eqn:U; simpl;
        first [exact (update_grows _ _ _ _ U) | apply feed_grows_refl].
  - unfold handle_data. destruct (pipes s !! ID p); [|apply feed_grows_refl].
    destruct (heap s !! n); [|apply feed_grows_refl].
    destruct (if (length (Data p) =? 0)%nat then _ else _) as [pw' [e|]];
      apply feed_grows_refl.
Qed.

Lemma step_grows o s ev :
  feed_grows (walker s) (walker (snd (step (o, s) ev))).
Proof.
  destruct ev as [r|path wc send_err|id a ctx_done|e]; simpl.
  - unfold recv_step. destruct o; try apply feed_grows_refl.
    + destruct r as [p|e]; [|apply feed_grows_refl].
      pose proof (handle_packet_grows s p) as G.
      destruct (handle_packet s p); exact G.
    + destruct r; apply feed_grows_refl.
  - unfold asyncDataFunc_request. destruct (files s !! path);
      [destruct send_err|]; apply feed_grows_refl.
  - unfold asyncDataFunc_finish. destruct (heap s !! a) as [wwc|];
      [|apply feed_grows_refl].
    destruct (Wait ctx_done wwc) as [[e|]|]; apply feed_grows_refl.
  - split; [exists []; rewrite app_nil_r; split; [reflexivity|]; trivial|].
    split; [reflexivity|]. simpl. trivial.
Qed.

Lemma run_events_grows evs : forall o s,
  feed_grows (walker s) (walker (snd (run_events evs (o, s)))).
Proof.
  unfold run_events. induction evs as [|ev evs IH]; intros o s;
    [apply feed_grows_refl|].
  change (feed_grows (walker s)
            (walker (snd (fold_left step evs (step (o, s) ev))))).
  pose proof (step_grows o s ev) as G.
  destruct (step (o, s) ev) as [o' s'].
  exact (feed_grows_trans _ _ _ G (IH o' s')).
Qed.

(** X3.  Whatever the sender, the disk writer and the cancellation do, in
    whatever order, entries once handed to the feed stay there in the
    order they were handed over: the feed after any further events is the
    feed before them with entries added at its end; and once the
    end-of-metadata marker has closed the feed it stays closed. *)
Theorem feed_is_append_only evs o s :
  let s' := snd (run_events evs (o, s)) in
  (exists new, walkChan (walker s') = walkChan (walker s) ++ new) /\
  (walkChan_closed (walker s) = true -> walkChan_closed (walker s') = true).
Proof.
  destruct (run_events_grows evs o s) as [(new & E & _) [_ D]].
  split; [exists new; exact E|exact D].
Qed.

(** X4.  Once [fill] has seen the context cancelled, no iteration that
    starts afterwards forwards anything: whatever events follow, the feed
    stays what it was at that moment and the walker stays cancelled. *)
Theorem cancelled_walker_forwards_nothing evs1 e evs2
  (sys : outcome * @receiver OV HV W) :
  let cancelled := step (run_events evs1 sys) (EvCancel e) in
  let s' := snd (run_events evs2 cancelled) in
  walkChan (walker s') = walkChan (walker (snd cancelled)) /\
  closeCh_closed (walker s') = true.
Proof.
  destruct (run_events evs1 sys) as [o1 s1]. simpl.
  pose proof (run_events_grows evs2 o1
                (set_walker s1 (fill_cancelled (walker s1) e))) as G.
  destruct G as [(new & E & F) [C _]]. simpl in *.
  rewrite E, (F eq_refl), app_nil_r. split; [reflexivity|]. exact (C eq_refl).
Qed.

End FeedFacts.

(** ** What a stream leaves behind *)

Section StreamFacts.
Context {env : Env}.
Context {OV HV W : Type}.
Context {order_handler : ChangeHandler OV}.
Context {hl_handler : ChangeHandler HV}.
Context {sink : WriteCloser W}.

Implicit Types (s : @receiver OV HV W) (st : Stat) (p : Packet).
Implicit Types (w : dynamicWalker) (cp : currentPath).

Lemma consumed_counted s p st :
  Type_ p = PACKET_STAT -> Stat_ p = Some st -> consumed s st = true ->
  counted (metadataTransfer s) (RecvOk p) = true.
Proof.
  intros Ht Hs C. unfold counted. rewrite Ht, Hs.
  unfold consumed in C. apply andb_true_iff in C as [_ C].
  unfold metadataTransfer. destruct (metadataOnly s); [|reflexivity].
  apply andb_true_iff in C as [C _]. simpl. rewrite C. reflexivity.
Qed.

Lemma counted_stats_cons mt p rs :
  counted_stats mt (RecvOk p :: rs) =
    match Type_ p with
    | PACKET_STAT =>
        match Stat_ p with
        | Some st => if counted mt (RecvOk p) then [st] else []
        | None => []
        end
    | _ => []
    end ++ counted_stats mt rs.
Proof. destruct p as [[] [st|] i dt]; reflexivity. Qed.

Lemma metadataTransfer_same s s' :
  metadataOnly s' = metadataOnly s -> metadataTransfer s' = metadataTransfer s.
Proof. unfold metadataTransfer. intros ->. reflexivity. Qed.

(** An iteration on a packet that is not counted, after which the loop
    goes on, changes nothing but a sink or the closed flag of the feed. *)
Lemma handle_packet_continue_uncounted s p s1 :
  handle_packet s p = Continue s1 ->
  counted (metadataTransfer s) (RecvOk p) = false ->
  same_bookkeeping s s1.
Proof.
  intros H Hc. revert H. unfold handle_packet.
  destruct (Type_ p) eqn:Ht; try discriminate.
  - destruct (Stat_ p) as [st|] eqn:Hs.
    + destruct (consumed s st) eqn:C.
      * rewrite (consumed_counted s p st Ht Hs C) in Hc. discriminate.
      * intros H. pose proof (handle_stat_not_consumed s st C) as B.
        simpl in B. destruct B as (_ & _ & _ & _ & _ & _ & _ & B).
        specialize (B s1 H). subst s1. repeat split.
    + intros H.
      destruct (update (walker s) None) as [w' [e|]|why] eqn:U;
        try discriminate. injection H as <-.
      destruct (update_returns _ _ _ _ U) as [(C & -> & _)|(C & D & _ & ->)];
        unfold same_bookkeeping; simpl; rewrite ?app_nil_r;
        repeat split; congruence.
  - intros [= <-]. repeat split.
  - unfold handle_data. destruct (pipes s !! ID p); [|discriminate].
    destruct (heap s !! n) as [pw|]; [|discriminate].
    destruct (if (length (Data p) =? 0)%nat then _ else _) as [pw' [e|]];
      [discriminate|]. intros [= <-]. repeat split.
  - intros [= <-]. repeat split.
Qed.

(** An iteration that took an entry through [accept_stat] and after which
    the loop goes on: both validators accepted. *)
Lemma accept_stat_continue s st native log metaOnly s1 :
  accept_stat s st native log metaOnly = Continue s1 ->
  snd (HandleChange (orderValidator s) ChangeKindAdd native
         (normalize st native)) = None /\
  snd (HandleChange (hlValidator s) ChangeKindAdd native
         (normalize st native)) = None /\
  (if metadataTransfer s
   then replay_parents (validated s st native log metaOnly)
          (mkCurrentPath native (normalize st native)) metaOnly
   else forward (validated s st native log metaOnly)
          (mkCurrentPath native (normalize st native))) = Continue s1.
Proof.
  intros H.
  destruct (snd (HandleChange (orderValidator s) ChangeKindAdd native
                   (normalize st native))) as [e|] eqn:E1.
  { destruct (accept_stat_order_rejects s st native log metaOnly e E1)
      as (s' & Hs' & _). congruence. }
  destruct (snd (HandleChange (hlValidator s) ChangeKindAdd native
                   (normalize st native))) as [e|] eqn:E2.
  { destruct (accept_stat_hardlink_rejects s st native log metaOnly e E1 E2)
      as (s' & Hs' & _). congruence. }
  repeat split. rewrite <- H. symmetry.
  exact (accept_stat_validated s st native log metaOnly E1 E2).
Qed.

(** A property every iteration keeps holds of the state the dispatch
    goroutine ends in. *)
Lemma dispatch_invariant (P : @receiver OV HV W -> Prop) :
  (forall s p, P s -> P (state_of (handle_packet s p))) ->
  forall rs s, P s -> P (fst (dispatch rs s)).
Proof.
  intros Hstep. induction rs as [|[p|e] rs IH]; intros s Hs; simpl;
    [exact Hs| |exact Hs].
  specialize (Hstep s p Hs).
  destruct (handle_packet s p); simpl in *; auto.
Qed.

(** A quantity that uncounted packets leave alone and that every counted
    entry moves by [g] is, after a stream that leaves the loop receiving,
    the fold of [g] over the counted entries. *)
Lemma dispatch_receiving_fold {A : Type} (mo : option (string -> Stat -> bool))
  (f : @receiver OV HV W -> A) (g : A -> Stat -> A) :
  (forall s p s1,
     metadataOnly s = mo -> handle_packet s p = Continue s1 ->
     counted (metadataTransfer s) (RecvOk p) = false -> f s1 = f s) ->
  (forall s st s1,
     metadataOnly s = mo -> consumed s st = true ->
     accept_stat s st (FromSlash goos (Path st)) (log_after s st)
       (metaOnly_of s st) = Continue s1 ->
     f s1 = g (f s) st) ->
  forall rs s s',
    metadataOnly s = mo ->
    dispatch rs s = (s', Receiving) ->
    f s' = fold_left g (counted_stats (metadataTransfer s) rs) (f s).
Proof.
  intros Hun Hco. induction rs as [|[p|e] rs IH]; intros s s' Hmo H;
    simpl in H; [injection H as <-; reflexivity| |discriminate].
  destruct (handle_packet s p) as [s1|s1 e|s1|s1 why] eqn:E;
    [|discriminate| |discriminate].
  2:{ exfalso. injection H as _ H. exact (drain_not_receiving rs H). }
  destruct (handle_packet_continue_counter s p s1 E) as [Hmo1 _].
  rewrite (IH s1 s' ltac:(congruence) H).
  rewrite (metadataTransfer_same s s1 Hmo1), counted_stats_cons.
  rewrite fold_left_app. f_equal.
  destruct (handle_packet_continue_cases s p s1 E)
    as [(Hc & _)|(st & Ht & Hs & Hc & Hcons & Hacc)].
  - rewrite (Hun s p s1 Hmo E Hc).
    destruct (Type_ p); try reflexivity.
    destruct (Stat_ p); [rewrite Hc|]; reflexivity.
  - rewrite Ht, Hs, Hc. simpl. exact (Hco s st s1 Hmo Hcons Hacc).
Qed.

(** X5.  The metadata log holds every consumed entry, accepted by the
    filter or not: after a stream that leaves the loop receiving, the log
    is what it was followed by the frames of the counted entries in stream
    order when a metadata-only filter is configured, and is untouched
    when none is. *)
Theorem metadata_log_holds_every_entry rs s s' :
  dispatch rs s = (s', Receiving) ->
  metadataBuffer s' =
    metadataBuffer s ++
    (if metadataTransfer s
     then log_of (counted_stats (metadataTransfer s) rs) else []).
Proof.
  intros H.
  rewrite (dispatch_receiving_fold (metadataOnly s) metadataBuffer
             (fun b st => if metadataTransfer s
                          then b ++ fst (frame st) else b)
             ltac:(intros s0 p s1 _ E Hc;
                   apply (handle_packet_continue_uncounted s0 p s1 E Hc))
             ltac:(intros s0 st s1 Hmo _ Hacc;
                   pose proof (accept_stat_bookkeeping s0 st
                                 (FromSlash goos (Path st)) (log_after s0 st)
                                 (metaOnly_of s0 st)) as B;
                   rewrite Hacc in B; simpl in B;
                   destruct B as (_ & _ & _ & _ & _ & _ & -> & _);
                   unfold log_after, metadataTransfer; rewrite Hmo;
                   destruct (metadataOnly s); reflexivity)
             rs s s' eq_refl H).
  generalize (metadataBuffer s) as b.
  generalize (counted_stats (metadataTransfer s) rs) as sts.
  destruct (metadataTransfer s).
  - induction sts as [|st sts IH]; intros b; simpl;
      [rewrite app_nil_r; reflexivity|].
    rewrite IH. unfold log_of. simpl. rewrite app_assoc. reflexivity.
  - induction sts as [|st sts IH]; intros b; simpl;
      [rewrite app_nil_r; reflexivity|apply IH].
Qed.

(** X6.  Each validator is shown exactly the counted entries of the
    stream, one after the other in stream order, each with its native path
    and normalized record: after a stream that leaves the loop receiving,
    the state of either validator is the state it started in after
    observing those entries in turn. *)
Theorem validators_observe_every_entry rs s s' :
  dispatch rs s = (s', Receiving) ->
  orderValidator s' =
    observe_all (orderValidator s) (counted_stats (metadataTransfer s) rs) /\
  hlValidator s' =
    observe_all (hlValidator s) (counted_stats (metadataTransfer s) rs).
Proof.
  intros H. split.
  - apply (dispatch_receiving_fold (metadataOnly s) orderValidator
             (fun v st =>
                fst (HandleChange v ChangeKindAdd (path (entry_of st))
                       (stat (entry_of st)))) ); try assumption;
      try reflexivity.
    + intros s0 p s1 _ E Hc.
      apply (handle_packet_continue_uncounted s0 p s1 E Hc).
    + intros s0 st s1 _ _ Hacc.
      pose proof (accept_stat_bookkeeping s0 st (FromSlash goos (Path st))
                    (log_after s0 st) (metaOnly_of s0 st)) as B.
      rewrite Hacc in B. cbv zeta in B.
      destruct B as (_ & _ & _ & _ & _ & _ & _ & _ & Ho & _). exact Ho.
  - apply (dispatch_receiving_fold (metadataOnly s) hlValidator
             (fun v st =>
                fst (HandleChange v ChangeKindAdd (path (entry_of st))
                       (stat (entry_of st)))) ); try assumption;
      try reflexivity.
    + intros s0 p s1 _ E Hc.
      apply (handle_packet_continue_uncounted s0 p s1 E Hc).
    + intros s0 st s1 _ _ Hacc.
      pose proof (accept_stat_bookkeeping s0 st (FromSlash goos (Path st))
                    (log_after s0 st) (metaOnly_of s0 st)) as B.
      rewrite Hacc in B. cbv zeta in B.
      destruct B as (_ & _ & _ & _ & _ & _ & _ & _ & _ & Hh).
      destruct (accept_stat_continue _ _ _ _ _ _ Hacc) as (E1 & _).
      rewrite E1 in Hh. exact Hh.
Qed.

(** X7.  Without a metadata-only filter the feed receives the stream as it
    is: after a stream that leaves the loop receiving, on a walker that
    was not cancelled, the feed is what it was followed by the counted
    entries of the stream, each exactly once and in stream order. *)
Theorem feed_without_filter_is_the_stream rs s s' :
  metadataOnly s = None ->
  closeCh_closed (walker s) = false ->
  dispatch rs s = (s', Receiving) ->
  walkChan (walker s') =
    walkChan (walker s) ++ map entry_of (counted_stats false rs) /\
  closeCh_closed (walker s') = false.
Proof.
  intros Hmo Hc H.
  pose proof (dispatch_receiving_fold None
                (fun s => (walkChan (walker s), closeCh_closed (walker s)))
                (fun a st => (if snd a then fst a else fst a ++ [entry_of st],
                              snd a))) as F.
  assert (Hmt : metadataTransfer s = false)
    by (unfold metadataTransfer; rewrite Hmo; reflexivity).
  specialize (F
    ltac:(intros s0 p s1 _ E Hu;
          destruct (handle_packet_continue_uncounted s0 p s1 E Hu)
            as (_ & _ & _ & _ & _ & _ & _ & _ & _ & _ & -> & ->);
          reflexivity)).
  assert (Hstep : forall s0 st s1,
            metadataOnly s0 = None -> consumed s0 st = true ->
            accept_stat s0 st (FromSlash goos (Path st)) (log_after s0 st)
              (metaOnly_of s0 st) = Continue s1 ->
            (walkChan (walker s1), closeCh_closed (walker s1)) =
            (if closeCh_closed (walker s0) then walkChan (walker s0)
             else walkChan (walker s0) ++ [entry_of st],
             closeCh_closed (walker s0))).
  { intros s0 st s1 Hmo0 _ Hacc.
    destruct (accept_stat_continue _ _ _ _ _ _ Hacc) as (_ & _ & Hf).
    unfold metadataTransfer in Hf. rewrite Hmo0 in Hf.
    unfold forward in Hf. simpl walker in Hf.
    destruct (update (walker s0) _) as [w' [e|]|why] eqn:U; try discriminate.
    injection Hf as <-. simpl.
    destruct (update_returns _ _ _ _ U) as [(C & -> & _)|(C & D & _ & ->)];
      rewrite C; reflexivity. }
  specialize (F Hstep rs s s' Hmo H). simpl in F. rewrite Hmt, Hc in F.
  assert (Hfold : forall sts (a : list currentPath),
            fold_left
              (fun (a : list currentPath * bool) st =>
                 (if snd a then fst a else fst a ++ [entry_of st], snd a))
              sts (a, false) = (a ++ map entry_of sts, false)).
  { induction sts as [|st sts IH]; intros a; simpl;
      [rewrite app_nil_r; reflexivity|].
    rewrite IH, <- app_assoc. reflexivity. }
  rewrite Hfold in F. injection F as -> ->. split; reflexivity.
Qed.

(** The pending table against the entries counted so far: every pending
    path stands under the position of an entry with that native path,
    content-eligible and not turned down by the filter. *)
Lemma dispatch_pending_positions rs : forall (pre : list Stat) s s',
  loop_i s = Z.of_nat (length pre) ->
  (forall (name : string) id,
     files s !! name = Some id ->
     0 <= id /\
     exists st,
       pre !! Z.to_nat id = Some st /\ FromSlash goos (Path st) = name /\
       fileCanRequestData (Mode st) = true /\ metaOnly_of s st = false) ->
  Z.of_nat (length pre) + count (metadataTransfer s) rs < uint32_max ->
  dispatch rs s = (s', Receiving) ->
  forall (name : string) id,
    files s' !! name = Some id ->
    0 <= id /\
    exists st,
      (pre ++ counted_stats (metadataTransfer s) rs) !! Z.to_nat id = Some st /\
      FromSlash goos (Path st) = name /\
      fileCanRequestData (Mode st) = true /\ metaOnly_of s st = false.
Proof.
  induction rs as [|[q|e] rs IH]; intros pre s s' Hi Hf Hlt H; simpl in H;
    [|destruct (handle_packet s q) as [s1|s1 e|s1|s1 why] eqn:E|discriminate];
    try discriminate.
  - injection H as <-. unfold counted_stats. simpl. rewrite app_nil_r.
    exact Hf.
  - destruct (handle_packet_continue_counter s q s1 E) as [Hmo Hi1].
    pose proof (metadataTransfer_same s s1 Hmo) as Hmt.
    rewrite count_cons in Hlt. rewrite counted_stats_cons.
    assert (Hmeta : forall st, metaOnly_of s1 st = metaOnly_of s st)
      by (intros st; unfold metaOnly_of; rewrite Hmo; reflexivity).
    destruct (handle_packet_continue_cases s q s1 E)
      as [(Hc & _)|(st & Ht & Hs & Hc & Hcons & Hacc)].
    + rewrite Hc in Hlt, Hi1.
      destruct (handle_packet_continue_uncounted s q s1 E Hc)
        as (_ & _ & Hfiles & _).
      replace (match Type_ q with PACKET_STAT => _ | _ => [] end)
        with (@nil Stat)
        by (destruct (Type_ q), (Stat_ q); try rewrite Hc; reflexivity).
      simpl app. rewrite <- Hmt.
      intros p id Hp.
      destruct (IH pre s1 s' ltac:(congruence)
                  ltac:(intros p0 id0 H0; rewrite Hfiles in H0;
                        destruct (Hf p0 id0 H0) as (R & st0 & A & B & C & D);
                        split; [exact R|]; exists st0;
                        rewrite Hmeta; repeat split; assumption)
                  ltac:(rewrite Hmt; lia) H p id Hp)
        as (R & st0 & A & B & C & D).
      split; [exact R|]. exists st0. rewrite <- Hmeta.
      repeat split; assumption.
    + rewrite Hc in Hlt, Hi1. rewrite Ht, Hs, Hc.
      pose proof (count_nonneg (metadataTransfer s) rs) as Hnn.
      rewrite uint32_small in Hi1 by (unfold uint32_max in *; lia).
      pose proof (accept_stat_bookkeeping s st (FromSlash goos (Path st))
                    (log_after s st) (metaOnly_of s st)) as B.
      rewrite Hacc in B. simpl in B.
      destruct B as (_ & _ & _ & _ & _ & _ & _ & Hfiles & _).
      rewrite app_assoc. rewrite <- Hmt.
      intros p id Hp.
      destruct (IH (pre ++ [st]) s1 s'
                  ltac:(rewrite length_app; simpl; lia))
        with (name := p) (id := id)
        as (R & st0 & A & B & C & D); try assumption.
      * intros p0 id0 H0. rewrite Hfiles in H0.
        destruct (negb (metaOnly_of s st) && fileCanRequestData (Mode st))
          eqn:Hrec.
        -- rewrite lookup_insert in H0. case_decide as Hd.
           ++ injection H0 as <-. split; [lia|]. exists st.
              apply andb_true_iff in Hrec as [Hm He].
              apply negb_true_iff in Hm.
              rewrite Hi, Nat2Z.id, Hmeta.
              repeat split; try assumption.
              rewrite lookup_app_r, Nat.sub_diag by lia. reflexivity.
           ++ destruct (Hf p0 id0 H0) as (R & st0 & A & B & C & D).
              split; [exact R|]. exists st0. rewrite Hmeta.
              repeat split; try assumption.
              apply lookup_app_l_Some. exact A.
        -- destruct (Hf p0 id0 H0) as (R & st0 & A & B & C & D).
           split; [exact R|]. exists st0. rewrite Hmeta.
           repeat split; try assumption.
           apply lookup_app_l_Some. exact A.
      * rewrite length_app, Hmt. simpl. lia.
      * split; [exact R|]. exists st0. rewrite <- Hmeta.
        repeat split; assumption.
  - exfalso. injection H as _ H. exact (drain_not_receiving rs H).
Qed.

(** X8.  A pending identifier is the position of its entry in the stream:
    after a stream with fewer counted entries than a [uint32] holds that
    leaves a fresh receiver receiving, every path in the pending table
    stands under the zero-based position, among the counted entries, of
    an entry with that native path whose mode is content-eligible and
    which no metadata-only filter turned down. *)
Theorem pending_identifier_is_stream_position d mo rs s'
  (name : string) id :
  dispatch rs (new_receiver d mo) = (s', Receiving) ->
  count (metadataTransfer s') rs < uint32_max ->
  files s' !! name = Some id ->
  0 <= id /\
  exists st,
    counted_stats (metadataTransfer s') rs !! Z.to_nat id = Some st /\
    FromSlash goos (Path st) = name /\
    fileCanRequestData (Mode st) = true /\
    metaOnly_of s' st = false.
Proof.
  intros H Hlt Hp.
  destruct (dispatch_counter rs _ s' H) as [Hmo _].
  pose proof (metadataTransfer_same _ _ Hmo) as Hmt. rewrite Hmt in Hlt |- *.
  destruct (dispatch_pending_positions rs [] (new_receiver d mo) s' eq_refl
              ltac:(intros p0 id0 H0; simpl in H0;
                    rewrite lookup_empty in H0; discriminate)
              ltac:(simpl; lia) H name id Hp) as (R & st & A & B & C & D).
  split; [exact R|]. exists st. repeat split; try assumption.
  unfold metaOnly_of in *. rewrite Hmo. exact D.
Qed.

Lemma drain_returned_nil rs :
  drain rs = Returned None ->
  exists ps rest, rs = map RecvOk ps ++ RecvErr io_EOF :: rest.
Proof.
  induction rs as [|[q|e] rs IH]; simpl; intros H; [discriminate| |].
  - destruct (IH H) as (ps & rest & ->). exists (q :: ps), rest. reflexivity.
  - destruct e; try discriminate. exists [], rs. reflexivity.
Qed.

Lemma handle_packet_fin s p s1 :
  handle_packet s p = Fin s1 -> Type_ p = PACKET_FIN /\ s1 = s.
Proof.
  unfold handle_packet. destruct (Type_ p) eqn:Ht; try discriminate.
  - destruct (Stat_ p) as [st|].
    + unfold handle_stat. destruct (negb _); [discriminate|].
      assert (A : forall log m,
                accept_stat s st (FromSlash goos (Path st)) log m <> Fin s1).
      { intros log m. unfold accept_stat.
        destruct (HandleChange (orderValidator s) _ _ _) as [ov [e1|]];
          [discriminate|].
        destruct (HandleChange (hlValidator s) _ _ _) as [hv [e2|]];
          [discriminate|].
        destruct (metadataTransfer s).
        - unfold replay_parents. destruct m; [discriminate|].
          match goal with
          | |- context [replay ?l ?w] =>
              destruct (replay l w) as [w' [e|]|why]
          end; try discriminate.
          unfold forward. destruct (update _ _) as [w'' [e|]|why];
            discriminate.
        - unfold forward. destruct (update _ _) as [w'' [e|]|why];
            discriminate. }
      destruct (metadataOnly s) as [filter|]; [|intros H; destruct (A _ _ H)].
      destruct (String.eqb _ metadataPath); [discriminate|].
      destruct (frame st) as [rec [e|]]; [discriminate|].
      intros H; destruct (A _ _ H).
    + destruct (update (walker s) None) as [w' [e|]|why]; discriminate.
  - unfold handle_data. destruct (pipes s !! ID p); [|discriminate].
    destruct (heap s !! n) as [pw|]; [|discriminate].
    destruct (if (length (Data p) =? 0)%nat then _ else _) as [pw' [e|]];
      discriminate.
  - intros [= <-]. split; reflexivity.
Qed.

(** X9.  The dispatch goroutine returns without error in one way only:
    when the stream is some packets that leave the loop receiving, then a
    Finish packet, then any packets, then end-of-stream; the state it
    returns in is the one it had when Finish arrived. *)
Theorem nil_return_needs_finish rs s s' :
  dispatch rs s = (s', Returned None) ->
  exists pre p ps rest,
    rs = pre ++ RecvOk p :: map RecvOk ps ++ RecvErr io_EOF :: rest /\
    Type_ p = PACKET_FIN /\
    dispatch pre s = (s', Receiving).
Proof.
  revert s. induction rs as [|[q|e] rs IH]; intros s H; simpl in H;
    try discriminate.
  destruct (handle_packet s q) as [s1|s1 e|s1|s1 why] eqn:E;
    try discriminate.
  - destruct (IH s1 H) as (pre & p & ps & rest & -> & Ht & Hpre).
    exists (RecvOk q :: pre), p, ps, rest. repeat split; [exact Ht|].
    simpl. rewrite E. exact Hpre.
  - injection H as <- H.
    destruct (drain_returned_nil rs H) as (ps & rest & ->).
    destruct (handle_packet_fin s q s1 E) as [Ht ->].
    exists [], q, ps, rest. repeat split. exact Ht.
Qed.

(** X10.  The end-of-metadata marker may come once.  On a walker that was
    neither cancelled nor closed, an empty Stat packet closes the feed and
    the loop goes on with everything else as it was; a second empty Stat
    packet then closes the closed channel, and without a metadata-only
    filter any further entry that passes the checks and both validators is
    sent on the closed channel: either way the goroutine panics. *)
Theorem stat_after_end_marker_panics s p :
  Type_ p = PACKET_STAT ->
  Stat_ p = None ->
  closeCh_closed (walker s) = false ->
  walkChan_closed (walker s) = false ->
  exists s1,
    handle_packet s p = Continue s1 /\
    same_bookkeeping s s1 /\
    walkChan_closed (walker s1) = true /\
    handle_packet s1 p = Panic s1 "close of closed channel" /\
    forall st,
      metadataOnly s = None ->
      consumed s1 st = true ->
      snd (HandleChange (orderValidator s) ChangeKindAdd (path (entry_of st))
             (stat (entry_of st))) = None ->
      snd (HandleChange (hlValidator s) ChangeKindAdd (path (entry_of st))
             (stat (entry_of st))) = None ->
      exists s2, handle_stat s1 st = Panic s2 "send on closed channel".
Proof.
  intros Ht Hs Hc Hw.
  set (s1 := set_walker s
               (mkWalker (walkChan (walker s)) true (err (walker s)) false)).
  exists s1. split; [|split; [|split; [|split]]].
  - unfold handle_packet, update. rewrite Ht, Hs, Hc, Hw. reflexivity.
  - unfold same_bookkeeping. simpl. repeat split. symmetry. exact Hc.
  - reflexivity.
  - unfold handle_packet, update. rewrite Ht, Hs. reflexivity.
  - intros st Hmo Hcons Ho Hh. rewrite (handle_stat_consumed s1 st Hcons).
    rewrite (accept_stat_validated s1 st (FromSlash goos (Path st))
               (log_after s1 st) (metaOnly_of s1 st) Ho Hh). simpl.
    unfold metadataTransfer. simpl. rewrite Hmo.
    unfold forward, update. simpl. eexists. reflexivity.
Qed.

(** *** The ancestor stack *)

Lemma ancestor_chain_app_l (l d : list currentPath) :
  ancestor_chain (l ++ d) = true -> ancestor_chain l = true.
Proof.
  induction l as [|x l IH]; [reflexivity|]. simpl.
  intros H. apply andb_true_iff in H as [H Hr].
  apply andb_true_iff in H as [Hd Hp]. rewrite Hd, (IH Hr).
  destruct l; [reflexivity|]. simpl in Hp. rewrite Hp. reflexivity.
Qed.

Lemma ancestor_chain_snoc (l : list currentPath) x :
  ancestor_chain l = true ->
  match last l with
  | None => True
  | Some top => path top = Dir (path x)
  end ->
  IsDir (Mode (stat x)) = true ->
  ancestor_chain (l ++ [x]) = true.
Proof.
  intros Hl Htop Hx. induction l as [|y l IH].
  - simpl. rewrite Hx. reflexivity.
  - destruct l as [|z l].
    + simpl in Hl, Htop |- *. rewrite Htop, String.eqb_refl, Hx.
      rewrite !andb_true_r in Hl. rewrite Hl. reflexivity.
    + change (IsDir (Mode (stat y)) &&
              String.eqb (path y) (Dir (path z)) &&
              ancestor_chain (z :: l) = true) in Hl.
      change (IsDir (Mode (stat y)) &&
              String.eqb (path y) (Dir (path z)) &&
              ancestor_chain ((z :: l) ++ [x]) = true).
      apply andb_true_iff in Hl as [H Hr]. rewrite H. simpl andb.
      apply IH; assumption.
Qed.

Lemma ancestor_chain_ancestors q : forall (l : list currentPath) top,
  ancestor_chain l = true ->
  last l = Some top -> path top = Dir q ->
  forall x, x ∈ l ->
    IsDir (Mode (stat x)) = true /\
    exists k, path x = Nat.iter (S k) Dir q.
Proof.
  induction l as [|y l IH]; intros top Hl Hlast Htop x Hx; [inversion Hx|].
  simpl in Hl. apply andb_true_iff in Hl as [H Hr].
  apply andb_true_iff in H as [Hd Hp].
  destruct l as [|z l].
  - simpl in Hlast. injection Hlast as ->.
    apply list_elem_of_singleton in Hx as ->.
    split; [exact Hd|]. exists O. exact Htop.
  - apply elem_of_cons in Hx as [->|Hx].
    + split; [exact Hd|].
      destruct (IH top Hr Hlast Htop z ltac:(left)) as [_ [k Hk]].
      exists (S k). apply String.eqb_eq in Hp. rewrite Hp, Hk. reflexivity.
    + exact (IH top Hr Hlast Htop x Hx).
Qed.

(** The stack as the [PACKET_STAT] case leaves it for the entry [cp],
    before a replay clears it. *)
Lemma trimmed_and_pushed_chain (stk : stack currentPath) cp :
  ancestor_chain (items stk) = true ->
  let st1 := trim_parents (length (items stk)) (Dir (path cp)) stk in
  ancestor_chain (items st1) = true /\
  ancestor_chain
    (items (if IsDir (Mode (stat cp)) then push st1 cp else st1)) = true /\
  forall x, x ∈ items st1 ->
    IsDir (Mode (stat x)) = true /\
    exists k, path x = Nat.iter (S k) Dir (path cp).
Proof.
  intros Hc st1. destruct stk as [its]. simpl in *.
  destruct (trim_parents_exit (Dir (path cp)) its (length its) (le_n _))
    as [[d Hd] Hexit]. fold st1 in Hd, Hexit.
  assert (H1 : ancestor_chain (items st1) = true)
    by (apply (ancestor_chain_app_l _ d); rewrite <- Hd; exact Hc).
  split; [exact H1|]. unfold peek in Hexit. split.
  - destruct (IsDir (Mode (stat cp))) eqn:Hdir; [|exact H1].
    simpl. apply ancestor_chain_snoc; [exact H1| |exact Hdir].
    destruct (last (items st1)); [exact Hexit|trivial].
  - intros x Hx. destruct (last (items st1)) as [top|] eqn:Hl.
    + exact (ancestor_chain_ancestors (path cp) _ top H1 Hl Hexit x Hx).
    + rewrite Hexit in Hx. inversion Hx.
Qed.

Lemma replay_parents_chain s cp m :
  ancestor_chain (items (metadataParents s)) = true ->
  ancestor_chain
    (items (metadataParents (state_of (replay_parents s cp m)))) = true.
Proof.
  intros Hc.
  destruct (trimmed_and_pushed_chain (metadataParents s) cp Hc)
    as (_ & H2 & _).
  unfold replay_parents. destruct m; [exact H2|].
  match goal with
  | |- context [replay ?l ?w] => destruct (replay l w) as [w' [e|]|why]
  end; try exact H2.
  unfold forward. destruct (update _ _) as [w'' [e|]|why]; reflexivity.
Qed.

Lemma handle_packet_chain s p :
  ancestor_chain (items (metadataParents s)) = true ->
  ancestor_chain
    (items (metadataParents (state_of (handle_packet s p)))) = true.
Proof.
  intros Hc.
  assert (A : forall st native log m,
            ancestor_chain
              (items (metadataParents
                        (state_of (accept_stat s st native log m)))) = true).
  { intros st native log m. unfold accept_stat.
    destruct (HandleChange (orderValidator s) _ _ _) as [ov [e1|]];
      [exact Hc|].
    destruct (HandleChange (hlValidator s) _ _ _) as [hv [e2|]];
      [exact Hc|].
    destruct (metadataTransfer s).
    - match goal with
      | |- context [replay_parents ?x ?c ?k] =>
          exact (replay_parents_chain x c k Hc)
      end.
    - unfold forward. destruct (update _ _) as [w'' [e|]|why]; exact Hc. }
  unfold handle_packet. destruct (Type_ p); try exact Hc.
  - destruct (Stat_ p) as [st|].
    + unfold handle_stat. destruct (negb _); [exact Hc|].
      destruct (metadataOnly s) as [filter|]; [|apply A].
      destruct (String.eqb _ metadataPath); [exact Hc|].
      destruct (frame st) as [rec [e|]]; [exact Hc|apply A].
    + destruct (update (walker s) None) as [w' [e|]|why]; exact Hc.
  - unfold handle_data. destruct (pipes s !! ID p); [|exact Hc].
    destruct (heap s !! n); [|exact Hc].
    destruct (if (length (Data p) =? 0)%nat then _ else _) as [pw' [e|]];
      exact Hc.
Qed.

(** X11.  The ancestor stack is always a chain of directories: whatever
    stream a fresh receiver is given and however the goroutine ends, every
    entry on the stack is a directory and the path of each is the
    [filepath.Dir] of the path of the one pushed after it. *)
Theorem ancestor_stack_is_a_chain rs d mo :
  ancestor_chain
    (items (metadataParents
              (fst (dispatch rs (new_receiver d mo : @receiver OV HV W)))))
  = true.
Proof.
  apply (dispatch_invariant
           (fun s => ancestor_chain (items (metadataParents s)) = true)).
  - intros s p. apply handle_packet_chain.
  - reflexivity.
Qed.

Lemma replay_returns its : forall w w',
  replay its w = Updated w' None ->
  (closeCh_closed w = true /\ w' = w) \/
  (closeCh_closed w = false /\ closeCh_closed w' = false /\
   walkChan w' = walkChan w ++ its).
Proof.
  induction its as [|cp rest IH]; intros w w' H; simpl in H.
  - injection H as <-. rewrite app_nil_r.
    destruct (closeCh_closed w) eqn:C; [left|right]; repeat split; exact C.
  - destruct (update w (Some cp)) as [w1 [e1|]|why] eqn:U; try discriminate.
    destruct (update_returns _ _ _ _ U) as [(C & -> & _)|(C & D & _ & ->)].
    + destruct (IH _ _ H) as [(_ & ->)|(C' & _)]; [left; split; trivial|].
      congruence.
    + destruct (IH _ _ H) as [(C' & _)|(_ & C' & E)]; [discriminate|].
      right. simpl in E. rewrite <- app_assoc in E. repeat split; assumption.
Qed.

(** With a metadata-only filter, what one entry adds to the feed is the
    entry and its ancestors, and only when the filter accepts it. *)
Lemma handle_stat_forwards s filter st s' :
  metadataOnly s = Some filter ->
  ancestor_chain (items (metadataParents s)) = true ->
  handle_stat s st = Continue s' ->
  exists new,
    walkChan (walker s') = walkChan (walker s) ++ new /\
    (filter (FromSlash goos (Path st)) st = false -> new = []) /\
    forall x, x ∈ new ->
      x = entry_of st \/
      (IsDir (Mode (stat x)) = true /\
       exists k, path x = Nat.iter (S k) Dir (path (entry_of st))).
Proof.
  intros Hmo Hc H.
  assert (Hnone : walker s' = walker s ->
            exists new,
              walkChan (walker s') = walkChan (walker s) ++ new /\
              (filter (FromSlash goos (Path st)) st = false -> new = []) /\
              forall x, x ∈ new ->
                x = entry_of st \/
                (IsDir (Mode (stat x)) = true /\
                 exists k, path x = Nat.iter (S k) Dir (path (entry_of st)))).
  { intros ->. exists []. rewrite app_nil_r. repeat split.
    intros x Hx. inversion Hx. }
  destruct (consumed s st) eqn:C.
  2:{ pose proof (handle_stat_not_consumed s st C) as B. simpl in B.
      destruct B as (_ & _ & _ & _ & _ & _ & _ & B).
      apply Hnone. rewrite (B s' H). reflexivity. }
  rewrite (handle_stat_consumed s st C) in H.
  destruct (accept_stat_continue _ _ _ _ _ _ H) as (_ & _ & Hr).
  unfold metadataTransfer in Hr. rewrite Hmo in Hr.
  unfold metaOnly_of in Hr. rewrite Hmo in Hr.
  fold (entry_of st) in Hr.
  destruct (filter (FromSlash goos (Path st)) st) eqn:Hf; simpl negb in Hr.
  2:{ rewrite replay_parents_rejected in Hr. injection Hr as <-.
      apply Hnone. reflexivity. }
  revert Hr. unfold replay_parents. simpl walker. simpl metadataParents.
  destruct (trimmed_and_pushed_chain (metadataParents s) (entry_of st) Hc)
    as (_ & _ & Hanc).
  set (st1 := trim_parents (length (items (metadataParents s)))
                (Dir (path (entry_of st))) (metadataParents s)) in *.
  set (st2 := if IsDir (Mode (stat (entry_of st)))
              then push st1 (entry_of st) else st1).
  destruct (replay (items st2) (walker s)) as [w' [e|]|why] eqn:R;
    try discriminate.
  unfold forward. simpl walker.
  destruct (update w' (Some (entry_of st))) as [w'' [e|]|why] eqn:U;
    try discriminate.
  intros [= <-]. simpl walker.
  assert (Hst2 : forall x, x ∈ items st2 ++ [entry_of st] ->
            x = entry_of st \/
            (IsDir (Mode (stat x)) = true /\
             exists k, path x = Nat.iter (S k) Dir (path (entry_of st)))).
  { intros x Hx. apply elem_of_app in Hx as [Hx|Hx].
    - subst st2. destruct (IsDir (Mode (stat (entry_of st)))).
      + simpl in Hx. apply elem_of_app in Hx as [Hx|Hx];
          [right; exact (Hanc x Hx)|].
        left. apply list_elem_of_singleton in Hx. exact Hx.
      + right. exact (Hanc x Hx).
    - left. apply list_elem_of_singleton in Hx. exact Hx. }
  destruct (replay_returns _ _ _ R) as [(Cc & ->)|(Cc & Cc' & E)].
  - destruct (update_returns _ _ _ _ U) as [(_ & -> & _)|(Cd & _)];
      [|congruence].
    exists []. rewrite app_nil_r. split; [reflexivity|].
    split; [reflexivity|]. intros x Hx. inversion Hx.
  - destruct (update_returns _ _ _ _ U) as [(Cd & _)|(_ & _ & _ & ->)];
      [congruence|].
    exists (items st2 ++ [entry_of st]). simpl. rewrite E, <- app_assoc.
    split; [reflexivity|]. split; [discriminate|exact Hst2].
Qed.

(** X12.  With a metadata-only filter the feed holds only what the filter
    accepted and the directories above it: after a stream that leaves the
    loop receiving, started on a stack that is a chain, everything the
    stream added to the feed is an entry of the stream that the filter
    accepted, or a directory whose path is [filepath.Dir] applied one or
    more times to the path of such an entry. *)
Theorem forwarded_are_accepted_entries_and_ancestors rs : forall s s' filter,
  metadataOnly s = Some filter ->
  ancestor_chain (items (metadataParents s)) = true ->
  dispatch rs s = (s', Receiving) ->
  exists new,
    walkChan (walker s') = walkChan (walker s) ++ new /\
    forall x, x ∈ new ->
      exists st,
        st ∈ counted_stats true rs /\
        filter (FromSlash goos (Path st)) st = true /\
        (x = entry_of st \/
         (IsDir (Mode (stat x)) = true /\
          exists k, path x = Nat.iter (S k) Dir (path (entry_of st)))).
Proof.
  induction rs as [|[p|e] rs IH]; intros s s' filter Hmo Hc H; simpl in H;
    [|destruct (handle_packet s p) as [s1|s1 e|s1|s1 why] eqn:E|discriminate];
    try discriminate.
  - injection H as <-. exists []. rewrite app_nil_r. split; [reflexivity|].
    intros x Hx. inversion Hx.
  - destruct (handle_packet_continue_counter s p s1 E) as [Hmo1 _].
    pose proof (handle_packet_chain s p Hc) as Hc1. rewrite E in Hc1.
    simpl in Hc1.
    destruct (IH s1 s' filter ltac:(congruence) Hc1 H) as (new1 & E1 & P1).
    assert (Hmt : metadataTransfer s = true)
      by (unfold metadataTransfer; rewrite Hmo; reflexivity).
    rewrite counted_stats_cons.
    destruct (handle_packet_continue_cases s p s1 E)
      as [(Hu & _)|(st & Ht & Hs & Hu & Hcons & Hacc)].
    + destruct (handle_packet_continue_uncounted s p s1 E Hu)
        as (_ & _ & _ & _ & _ & _ & _ & _ & _ & _ & Hw & _).
      exists new1. rewrite E1, Hw. split; [reflexivity|].
      intros x Hx. destruct (P1 x Hx) as (st & Hin & Hrest).
      exists st. split; [|exact Hrest]. apply elem_of_app. right. exact Hin.
    + rewrite Hmt in Hu. rewrite Ht, Hs, Hu.
      rewrite <- (handle_stat_consumed s st Hcons) in Hacc.
      destruct (handle_stat_forwards s filter st s1 Hmo Hc Hacc)
        as (new0 & E0 & Hrej & P0).
      exists (new0 ++ new1). rewrite E1, E0, app_assoc.
      split; [reflexivity|]. intros x Hx.
      apply elem_of_app in Hx as [Hx|Hx].
      * exists st. split; [apply elem_of_app; left; left|].
        split; [|exact (P0 x Hx)].
        destruct (filter (FromSlash goos (Path st)) st); [reflexivity|].
        rewrite (Hrej eq_refl) in Hx. inversion Hx.
      * destruct (P1 x Hx) as (st' & Hin & Hrest).
        exists st'. split; [|exact Hrest]. apply elem_of_app. right.
        exact Hin.
  - exfalso. injection H as _ H. exact (drain_not_receiving rs H).
Qed.

End StreamFacts.

(** ** The trimming loop, sinks, callbacks and the end of [run] *)

Section CallbackFacts.
Context {env : Env}.
Context {OV HV W : Type}.
Context {order_handler : ChangeHandler OV}.
Context {hl_handler : ChangeHandler HV}.
Context {sink : WriteCloser W}.

Implicit Types (s : @receiver OV HV W) (st : Stat) (p : Packet).
Implicit Types (w : wrappedWriteCloser W) (cp : currentPath).

Lemma trim_parents_drops parent : forall its fuel,
  (length its <= fuel)%nat ->
  let out := trim_parents fuel parent (mkStack its) in
  exists dropped,
    its = items out ++ dropped /\
    (forall x, x ∈ dropped -> path x <> parent) /\
    match last (items out) with
    | None => items out = []
    | Some top => path top = parent
    end.
Proof.
  induction its as [|x l IH] using rev_ind; intros fuel Hlen.
  - exists []. destruct fuel; simpl; repeat split; intros y Hy; inversion Hy.
  - rewrite length_app in Hlen. simpl in Hlen.
    destruct fuel as [|fuel]; [lia|]. simpl.
    rewrite (peek_items (mkStack (l ++ [x])) l x eq_refl).
    destruct (String.eqb parent (path x)) eqn:E.
    + exists []. simpl. rewrite app_nil_r, last_snoc.
      apply String.eqb_eq in E. repeat split; [|congruence].
      intros y Hy. inversion Hy.
    + rewrite (pop_items (mkStack (l ++ [x])) l x eq_refl). simpl.
      destruct (IH fuel ltac:(lia)) as (d & Hd & Hne & Hexit).
      exists (d ++ [x]). rewrite app_assoc, <- Hd.
      split; [reflexivity|]. split; [|exact Hexit].
      intros y Hy. apply elem_of_app in Hy as [Hy|Hy]; [exact (Hne y Hy)|].
      apply list_elem_of_singleton in Hy as ->.
      apply String.eqb_neq in E. congruence.
Qed.

Lemma trim_parents_stable parent : forall fuel (stk : stack currentPath),
  match last (items stk) with
  | None => True
  | Some top => path top = parent
  end ->
  trim_parents fuel parent stk = stk.
Proof.
  intros fuel stk H. destruct fuel; [reflexivity|]. simpl. unfold peek.
  destruct (last (items stk)) as [top|]; [|reflexivity].
  rewrite H, String.eqb_refl. reflexivity.
Qed.

(** X13.  The loop that trims the ancestor stack stops, within as many
    passes as the stack has entries, at the topmost entry whose path is
    the parent looked for: it removes from the top exactly the entries
    above that one, all of them when there is none, and further passes
    would change nothing. *)
Theorem trim_stops_at_the_parent (stk : stack currentPath) parent :
  let out := trim_parents (length (items stk)) parent stk in
  (exists dropped,
     items stk = items out ++ dropped /\
     forall x, x ∈ dropped -> path x <> parent) /\
  match peek out with
  | None => items out = []
  | Some top => path top = parent
  end /\
  forall more, trim_parents more parent out = out.
Proof.
  destruct stk as [its]. simpl.
  destruct (trim_parents_drops parent its (length its) (le_n _))
    as (d & Hd & Hne & Hexit).
  split; [exists d; split; assumption|]. split; [exact Hexit|].
  intros more. apply trim_parents_stable.
  destruct (last (items (trim_parents (length its) parent (mkStack its))));
    [exact Hexit|trivial].
Qed.

(** X14.  [Wait] hands back what [Close] returned: after the sink was
    closed, a wait that is not cancelled returns the error of the close,
    or nil; before the close it blocks; writes neither wake it nor touch
    the recorded error; and a cancelled context makes it return the
    cancellation whatever the sink. *)
Theorem wait_returns_what_close_returned w dt e :
  Wait None (fst (wrapped_Close w)) = Some (snd (wrapped_Close w)) /\
  snd (wrapped_Close w) = snd (Close (inner w)) /\
  Wait None (fst (wrapped_Write w dt)) = Wait None w /\
  Wait None (newWrappedWriteCloser (inner w)) = None /\
  Wait (Some e) w = Some (Some e).
Proof.
  unfold wrapped_Close, wrapped_Write, Wait.
  destruct (Close (inner w)) as [wc ec]. destruct (Write (inner w) dt).
  repeat split.
Qed.

(** X15.  A Data packet touches one sink and nothing else: whatever it
    carries and however the iteration ends, the pending table, the sink
    table, the sent packets, both validators, the counter, the metadata
    log, the ancestor stack and the walker are as before, no sink is added
    or removed, and every sink other than the one registered for the
    identifier of the packet is as before. *)
Theorem data_packet_touches_one_sink s p :
  Type_ p = PACKET_DATA ->
  let s' := state_of (handle_packet s p) in
  same_bookkeeping s s' /\ walker s' = walker s /\
  length (heap s') = length (heap s) /\
  forall a, pipes s !! ID p <> Some a -> heap s' !! a = heap s !! a.
Proof.
  intros Ht. unfold handle_packet, handle_data. rewrite Ht.
  destruct (pipes s !! ID p) as [a0|] eqn:Hp; [|repeat split].
  destruct (heap s !! a0) as [pw|]; [|repeat split].
  destruct (if (length (Data p) =? 0)%nat then _ else _) as [pw' [e|]];
    simpl; (split; [repeat split|]); (split; [reflexivity|]);
    (split; [apply length_insert|]);
    intros a Ha; apply list_lookup_insert_ne; congruence.
Qed.

(** X16.  An entry can be requested as soon as its Stat has been handled:
    for a consumed entry with a content-eligible mode that no filter
    turned down, the callback called for its native path right after the
    iteration, however that ended, sends one Request carrying the value
    the counter had when the entry arrived, registers the sink under it,
    and leaves the path no longer pending. *)
Theorem request_follows_stat s st wc send_err :
  consumed s st = true ->
  metaOnly_of s st = false ->
  fileCanRequestData (Mode st) = true ->
  let native := FromSlash goos (Path st) in
  let s1 := state_of (handle_stat s st) in
  let s2 := fst (asyncDataFunc_request s1 native wc send_err) in
  conn s2 = conn s ++ [mkPacket PACKET_REQ None (loop_i s) []] /\
  pipes s2 = <[loop_i s := length (heap s)]> (pipes s) /\
  heap s2 = heap s ++ [newWrappedWriteCloser wc] /\
  files s2 !! native = None /\
  snd (asyncDataFunc_request s1 native wc send_err) =
    match send_err with
    | Some e => inl e
    | None => inr (loop_i s, length (heap s))
    end.
Proof.
  intros Hc Hm He native s1 s2.
  pose proof (accept_stat_bookkeeping s st native (log_after s st)
                (metaOnly_of s st)) as B.
  rewrite <- (handle_stat_consumed s st Hc) in B. fold s1 in B. simpl in B.
  destruct B as (_ & _ & Hp & Hh & Hcn & _ & _ & Hf & _).
  rewrite Hm, He in Hf. simpl in Hf.
  assert (Hl : files s1 !! native = Some (loop_i s))
    by (rewrite Hf; apply lookup_insert_eq).
  destruct (request_present s1 native wc send_err (loop_i s) Hl)
    as (Rf & Rc & _ & Rp & Rh & _ & Rr). fold s2 in Rf, Rc, Rp, Rh.
  rewrite Rc, Rp, Rh, Rr, Rf, Hcn, Hp, Hh.
  repeat split. apply lookup_delete_eq.
Qed.

(** X17.  The callback never closes a sink and gives up its table entry
    only on a normal end: when the wait ends with an error, the
    cancellation or the error of the close, the callback returns that
    error and the receiver, the sink-table entry included, stays as it
    is; while the sink is open and nothing is cancelled it stays blocked;
    and in every case the sinks, the pending table and the sent packets
    are untouched. *)
Theorem callback_end_keeps_the_sink s id a w :
  heap s !! a = Some w ->
  (forall e, asyncDataFunc_finish s id a (Some e) = Some (s, Some e)) /\
  (forall e, done w = true -> close_err w = Some e ->
             asyncDataFunc_finish s id a None = Some (s, Some e)) /\
  (done w = false -> asyncDataFunc_finish s id a None = None) /\
  (forall ctx_done s' r,
     asyncDataFunc_finish s id a ctx_done = Some (s', r) ->
     heap s' = heap s /\ files s' = files s /\ conn s' = conn s /\
     (pipes s' = pipes s \/ (r = None /\ pipes s' = delete id (pipes s)))).
Proof.
  intros Hh. unfold asyncDataFunc_finish, Wait. rewrite Hh.
  split; [reflexivity|]. split; [intros e -> ->; reflexivity|].
  split; [intros ->; reflexivity|].
  intros ctx_done s' r. destruct ctx_done as [e|].
  - intros [= <- <-]. repeat split. left. reflexivity.
  - destruct (done w); [|discriminate].
    destruct (close_err w); intros [= <- <-]; repeat split;
      [left|right]; repeat split.
Qed.

(** X18.  The end of [run] never leaves the log file open and writes
    nothing it should not: there is no file-system call at all when a
    goroutine failed or no metadata-only filter is configured, and
    otherwise the first call removes the reserved name; the log is written
    only when the goroutines succeeded, a filter is configured and the
    open succeeded; whenever the open succeeded the last call, if there is
    any, closes the file; and the error returned is the first failure
    among the goroutines, the open, the write and the close. *)
Theorem epilogue_closes_what_it_opened s group_err fs :
  let calls := fst (run_epilogue s group_err fs) in
  let result := snd (run_epilogue s group_err fs) in
  match group_err with
  | Some _ => calls = []
  | None =>
      if metadataTransfer s
      then head calls = Some (os_Remove (Join (dest s) metadataPath))
      else calls = []
  end /\
  (buffer_WriteTo (metadataBuffer s) ∈ calls ->
   group_err = None /\ metadataTransfer s = true /\ OpenFile_err fs = None) /\
  (OpenFile_err fs = None -> calls = [] \/ last calls = Some file_Close) /\
  result =
    match group_err with
    | Some e => Some e
    | None =>
        if metadataTransfer s then
          match OpenFile_err fs, WriteTo_err fs with
          | Some e, _ => Some e
          | None, Some e => Some e
          | None, None => Close_err fs
          end
        else None
    end.
Proof.
  unfold run_epilogue. destruct group_err as [e|]; simpl.
  { split; [reflexivity|]. split; [intros H; inversion H|].
    split; [intros _; left|]; reflexivity. }
  destruct (metadataTransfer s); simpl.
  2:{ split; [reflexivity|]. split; [intros H; inversion H|].
      split; [intros _; left|]; reflexivity. }
  destruct (OpenFile_err fs) as [e|]; [|destruct (WriteTo_err fs) as [e|]];
    simpl; (split; [reflexivity|]); (split; [|split; [|reflexivity]]).
  - intros H. exfalso. apply elem_of_cons in H as [H|H]; [discriminate|].
    apply elem_of_cons in H as [H|H]; [discriminate|]. inversion H.
  - discriminate.
  - intros _. repeat split.
  - intros _. right. reflexivity.
  - intros _. repeat split.
  - intros _. right. reflexivity.
Qed.


Lemma set_heap_same s : set_heap s (heap s) = s.
Proof. destruct s. reflexivity. Qed.

Lemma set_heap_twice s h1 h2 : set_heap (set_heap s h1) h2 = set_heap s h2.
Proof. reflexivity. Qed.

(** X19.  The chunks of a file reach its sink in order: a run of Data
    packets with one identifier, none of them empty, writes each chunk to
    the sink registered for the identifier, in the order of arrival, and
    changes nothing else; the loop keeps receiving unless a write fails,
    and then [run] returns that error without touching the later chunks. *)
Theorem chunks_reach_the_sink_in_order chunks : forall s id a w,
  pipes s !! id = Some a ->
  heap s !! a = Some w ->
  Forall (fun dt => dt <> []) chunks ->
  let r := write_all (inner w) chunks in
  dispatch (map (fun dt => RecvOk (data_packet id dt)) chunks) s =
    (set_heap s (<[a := mkWrapped (fst r) (close_err w) (done w)]> (heap s)),
     match snd r with
     | None => Receiving
     | Some e => Returned (Some e)
     end).
Proof.
  induction chunks as [|dt chunks IH]; intros s id a w Hp Hh Hne; simpl.
  - rewrite (list_insert_id (heap s) a); [|destruct w; exact Hh].
    rewrite set_heap_same. reflexivity.
  - inversion Hne as [|? ? Hdt Hrest]; subst.
    assert (Hlt : (a < length (heap s))%nat)
      by (apply lookup_lt_is_Some_1; rewrite Hh; eexists; reflexivity).
    unfold handle_packet. simpl Type_.
    rewrite (handle_data_chunk s (data_packet id dt) a w Hp Hh). simpl Data.
    destruct dt as [|b dt]; [congruence|]. simpl length. simpl Nat.eqb.
    cbv iota. unfold wrapped_Write.
    destruct (Write (inner w) (b :: dt)) as [wc' [e|]]; simpl; [reflexivity|].
    rewrite (IH _ id a (mkWrapped wc' (close_err w) (done w)));
      [|exact Hp|simpl; apply list_lookup_insert_eq; exact Hlt|exact Hrest].
    simpl. rewrite set_heap_twice, list_insert_insert_eq. reflexivity.
Qed.

(** X20.  Pending identifiers stay apart: after any interleaving of the
    dispatch loop and the callbacks that is shorter than the range of the
    counter, every pending identifier is below the counter, belongs to one
    path only, and has not been sent in a Request. *)
Theorem pending_identifiers_are_distinct d mo evs :
  Z.of_nat (length evs) < uint32_max ->
  let s : @receiver OV HV W :=
    snd (run_events evs (Receiving, new_receiver d mo)) in
  forall (name : string) id,
    files s !! name = Some id ->
    0 <= id < loop_i s /\
    (id ∉ requested s) /\
    forall (other : string), files s !! other = Some id -> other = name.
Proof.
  intros K s name id Hf.
  destruct (run_events_pending_ok evs 0 Receiving
              (new_receiver d mo : @receiver OV HV W)
              (new_receiver_pending_ok d mo) ltac:(simpl; lia) ltac:(lia))
    as (Hrange & Hinj & Hreq & _).
  fold s in Hrange, Hinj, Hreq.
  split; [exact (Hrange name id Hf)|]. split.
  - intros Hin. destruct (Hreq id Hin) as [_ Hno]. exact (Hno name Hf).
  - intros other Ho. exact (Hinj other name id Ho Hf).
Qed.

Lemma ReplaceAll_back (name : string) :
  ReplaceAll (ReplaceAll name "/" "\") "\" "/" = name <->
  contains "\" name = false.
Proof.
  induction name as [|c rest IH]; simpl; [tauto|].
  destruct (Ascii.eqb c "/") eqn:E1.
  - apply Ascii.eqb_eq in E1. subst c. simpl. split.
    + intros H. injection H as H. apply IH. exact H.
    + intros H. f_equal. apply IH. exact H.
  - destruct (Ascii.eqb c "\") eqn:E2; simpl; split.
    + intros H. apply Ascii.eqb_eq in E2. subst c. discriminate H.
    + discriminate.
    + intros H. injection H as H. apply IH. exact H.
    + intros H. f_equal. apply IH. exact H.
Qed.

(** X21.  Which wire paths the platform can represent: where the separator
    is the slash every path passes the check of the Stat case; where it is
    the backslash a path passes exactly when it holds no backslash, and an
    entry whose path holds one ends the iteration with the path error and
    leaves the receiver as it was. *)
Theorem backslash_is_unrepresentable_on_windows s st :
  (ToSlash goos (FromSlash goos (Path st)) = Path st <->
   goos = unix \/ contains "\" (Path st) = false) /\
  (goos = windows /\ contains "\" (Path st) = true ->
   handle_stat s st =
     Abort s (PathError "unrepresentable path" (Path st))).
Proof.
  assert (R : ToSlash goos (FromSlash goos (Path st)) = Path st <->
              goos = unix \/ contains "\" (Path st) = false).
  { unfold ToSlash, FromSlash. destruct goos; simpl.
    - split; [intros _; left|]; reflexivity.
    - rewrite ReplaceAll_back. split; [intros H; right; exact H|].
      intros [H|H]; [discriminate|exact H]. }
  split; [exact R|]. intros [Hw Hb].
  apply handle_stat_unrepresentable. intros H. apply R in H as [H|H];
    congruence.
Qed.

End CallbackFacts.

(** ** The remaining properties on concrete transfers *)

Lemma metadata_log_holds_every_entry_witness :
  let rs := stats [dir_entry "a"; file_entry "a/f"] in
  let s := example_receiver accept_all in
  let s' := fst (dispatch_on unix rs s) in
  dispatch_on unix rs s = (s', Receiving) /\
  metadataBuffer s' =
    metadataBuffer s ++
    (if metadataTransfer s
     then log_of (env := example_env unix)
            (counted_stats (env := example_env unix) (metadataTransfer s) rs)
     else []).
Proof.
  intros rs s s'.
  split; [vm_compute; reflexivity|].
  assert (H : dispatch (env := example_env unix) rs s = (s', Receiving))
    by (vm_compute; reflexivity).
  exact (metadata_log_holds_every_entry (env := example_env unix) rs s s' H).
Defined.

Lemma validators_observe_every_entry_witness :
  let rs := stats [dir_entry "a"; file_entry "a/f"] in
  let s := example_receiver None in
  let s' := fst (dispatch_on unix rs s) in
  let seen :=
    counted_stats (env := example_env unix) (metadataTransfer s) rs in
  dispatch_on unix rs s = (s', Receiving) /\
  orderValidator s' =
    observe_all (env := example_env unix) (orderValidator s) seen /\
  hlValidator s' =
    observe_all (env := example_env unix) (hlValidator s) seen.
Proof.
  intros rs s s' seen.
  split; [vm_compute; reflexivity|].
  assert (H : dispatch (env := example_env unix) rs s = (s', Receiving))
    by (vm_compute; reflexivity).
  exact (validators_observe_every_entry (env := example_env unix) rs s s' H).
Defined.

Lemma feed_without_filter_is_the_stream_witness :
  let rs := stats [dir_entry "a"; file_entry "a/f"; file_entry "b"] in
  let s := example_receiver None in
  let s' := fst (dispatch_on unix rs s) in
  dispatch_on unix rs s = (s', Receiving) /\
  walkChan (walker s') =
    walkChan (walker s) ++
    map (entry_of (env := example_env unix))
      (counted_stats (env := example_env unix) false rs) /\
  closeCh_closed (walker s') = false.
Proof.
  intros rs s s'.
  split; [vm_compute; reflexivity|].
  assert (H : dispatch (env := example_env unix) rs s = (s', Receiving))
    by (vm_compute; reflexivity).
  exact (feed_without_filter_is_the_stream (env := example_env unix) rs s s'
           eq_refl eq_refl H).
Defined.

Lemma pending_identifier_is_stream_position_witness :
  let rs := stats [dir_entry "a"; file_entry "a/f"] in
  let s' := fst (dispatch_on unix rs (example_receiver None)) in
  files s' !! "a/f" = Some 1 /\
  0 <= 1 /\
  exists st,
    counted_stats (env := example_env unix) (metadataTransfer s') rs
      !! Z.to_nat 1 = Some st /\
    FromSlash unix (Path st) = "a/f" /\
    IsRegular (Mode st) = true /\
    metaOnly_of (env := example_env unix) s' st = false.
Proof.
  intros rs s'.
  assert (Hf : files s' !! "a/f" = Some 1) by (vm_compute; reflexivity).
  assert (H : dispatch (env := example_env unix) rs
                (new_receiver "/dest" None
                 : @receiver Validator Hardlinks bufferSink) =
              (s', Receiving)) by (vm_compute; reflexivity).
  split; [exact Hf|].
  exact (pending_identifier_is_stream_position (env := example_env unix)
           "/dest" None rs s' "a/f" 1 H ltac:(vm_compute; reflexivity) Hf).
Defined.

Lemma nil_return_needs_finish_witness :
  let rs :=
    stats [file_entry "f"] ++
    [RecvOk (plain_packet PACKET_FIN); RecvOk (plain_packet PACKET_DATA);
     RecvErr io_EOF] in
  let s := example_receiver None in
  let s' := fst (dispatch_on unix rs s) in
  dispatch_on unix rs s = (s', Returned None) /\
  exists pre p ps rest,
    rs = pre ++ RecvOk p :: map RecvOk ps ++ RecvErr io_EOF :: rest /\
    Type_ p = PACKET_FIN /\
    dispatch_on unix pre s = (s', Receiving).
Proof.
  intros rs s s'.
  split; [vm_compute; reflexivity|].
  assert (H : dispatch (env := example_env unix) rs s = (s', Returned None))
    by (vm_compute; reflexivity).
  exact (nil_return_needs_finish (env := example_env unix) rs s s' H).
Defined.

Lemma stat_after_end_marker_panics_witness :
  let s := example_receiver None in
  let p := plain_packet PACKET_STAT in
  exists s1,
    handle_packet (env := example_env unix) s p = Continue s1 /\
    walkChan_closed (walker s1) = true /\
    handle_packet (env := example_env unix) s1 p =
      Panic s1 "close of closed channel".
Proof.
  intros s p.
  destruct (stat_after_end_marker_panics (env := example_env unix) s p
              eq_refl eq_refl eq_refl eq_refl)
    as (s1 & H1 & _ & H2 & H3 & _).
  exists s1. split; [exact H1|]. split; [exact H2|exact H3].
Defined.

Lemma forwarded_are_accepted_entries_and_ancestors_witness :
  let rs := stats [dir_entry "a"; file_entry "a/f"; file_entry "b"] in
  let filter := fun (name : string) (_ : Stat) => String.eqb name "a/f" in
  let s := example_receiver (Some filter) in
  let s' := fst (dispatch_on unix rs s) in
  dispatch_on unix rs s = (s', Receiving) /\
  exists new,
    walkChan (walker s') = walkChan (walker s) ++ new /\
    forall x, x ∈ new ->
      exists st,
        st ∈ counted_stats (env := example_env unix) true rs /\
        filter (FromSlash unix (Path st)) st = true /\
        (x = entry_of (env := example_env unix) st \/
         (IsDir (Mode (stat x)) = true /\
          exists k,
            path x =
              Nat.iter (S k) (filepath_Dir unix)
                (path (entry_of (env := example_env unix) st)))).
Proof.
  intros rs filter s s'.
  split; [vm_compute; reflexivity|].
  assert (H : dispatch (env := example_env unix) rs s = (s', Receiving))
    by (vm_compute; reflexivity).
  exact (forwarded_are_accepted_entries_and_ancestors
           (env := example_env unix) rs s s' filter eq_refl eq_refl H).
Defined.

Lemma data_packet_touches_one_sink_witness :
  let wc := mkBufferSink [] 0 in
  let s0 :=
    fst (dispatch_on unix (stats [file_entry "f"; file_entry "g"])
           (example_receiver None)) in
  let s1 := fst (asyncDataFunc_request s0 "f" wc None) in
  let s := fst (asyncDataFunc_request s1 "g" wc None) in
  let s' :=
    state_of (handle_packet (env := example_env unix) s
                (data_packet 1 [x01])) in
  same_bookkeeping s s' /\ walker s' = walker s /\
  length (heap s') = length (heap s) /\
  forall a, pipes s !! 1 <> Some a -> heap s' !! a = heap s !! a.
Proof.
  intros wc s0 s1 s s'.
  exact (data_packet_touches_one_sink (env := example_env unix) s
           (data_packet 1 [x01]) eq_refl).
Defined.

Lemma request_follows_stat_witness :
  let s := fst (dispatch_on unix (stats [dir_entry "a"])
                  (example_receiver None)) in
  let st := file_entry "a/f" in
  let wc := mkBufferSink [] 0 in
  let s1 := state_of (handle_stat (env := example_env unix) s st) in
  let s2 := fst (asyncDataFunc_request s1 "a/f" wc None) in
  conn s2 = conn s ++ [mkPacket PACKET_REQ None (loop_i s) []] /\
  pipes s2 = <[loop_i s := length (heap s)]> (pipes s) /\
  heap s2 = heap s ++ [newWrappedWriteCloser wc] /\
  files s2 !! "a/f" = None /\
  snd (asyncDataFunc_request s1 "a/f" wc None) =
    inr (loop_i s, length (heap s)).
Proof.
  intros s st wc s1 s2.
  exact (request_follows_stat (env := example_env unix) s st wc None
           ltac:(vm_compute; reflexivity) ltac:(vm_compute; reflexivity)
           ltac:(vm_compute; reflexivity)).
Defined.

Lemma callback_end_keeps_the_sink_witness :
  let wc := mkBufferSink [] 0 in
  let s0 :=
    fst (dispatch_on unix (stats [file_entry "f"]) (example_receiver None)) in
  let s := fst (asyncDataFunc_request s0 "f" wc None) in
  let w := newWrappedWriteCloser wc in
  heap s !! 0%nat = Some w /\
  (forall e, asyncDataFunc_finish s 0 0%nat (Some e) = Some (s, Some e)) /\
  (done w = false -> asyncDataFunc_finish s 0 0%nat None = None).
Proof.
  intros wc s0 s w.
  assert (H : heap s !! 0%nat = Some w) by (vm_compute; reflexivity).
  destruct (callback_end_keeps_the_sink s 0 0%nat w H) as (H1 & _ & H3 & _).
  split; [exact H|]. split; [exact H1|exact H3].
Defined.

Lemma chunks_reach_the_sink_in_order_witness :
  let wc := mkBufferSink [] 0 in
  let s0 :=
    fst (dispatch_on unix (stats [file_entry "f"]) (example_receiver None)) in
  let s := fst (asyncDataFunc_request s0 "f" wc None) in
  let chunks := [[x01]; [x02; x03]] in
  dispatch_on unix (map (fun dt => RecvOk (data_packet 0 dt)) chunks) s =
    (set_heap s [mkWrapped (mkBufferSink [x01; x02; x03] 0) None false],
     Receiving).
Proof.
  intros wc s0 s chunks.
  exact (chunks_reach_the_sink_in_order (env := example_env unix) chunks s 0
           0%nat (newWrappedWriteCloser wc)
           ltac:(vm_compute; reflexivity) ltac:(vm_compute; reflexivity)
           ltac:(repeat constructor; discriminate)).
Defined.

Lemma pending_identifiers_are_distinct_witness :
  let wc := mkBufferSink [] 0 in
  let evs :=
    [EvRecv (RecvOk (stat_packet (file_entry "f")));
     EvRecv (RecvOk (stat_packet (file_entry "g")));
     EvRequest "f" wc None] in
  let s := snd (run_events_on unix evs (Receiving, example_receiver None)) in
  files s !! "g" = Some 1 /\
  0 <= 1 < loop_i s /\
  (1 ∉ requested s) /\
  forall (other : string), files s !! other = Some 1 -> other = "g".
Proof.
  intros wc evs s.
  assert (Hf : files s !! "g" = Some 1) by (vm_compute; reflexivity).
  split; [exact Hf|].
  exact (pending_identifiers_are_distinct (env := example_env unix) "/dest"
           None evs ltac:(vm_compute; reflexivity) "g" 1 Hf).
Defined.
